(** * jiometry-cli: point parsing and rotation (src/assets/ts/rotate.ts)

    A shallow embedding of the four functions exported by [rotate.ts]:
    [rotate], [parsePoints], [parsePoint] and [parseCenter], and of the
    action of the command that calls them ([rotateCmd.ts]), together
    with the ECMAScript built-ins they call.

    - A JavaScript [number] is an IEEE 754 binary64 value: Rocq's
      primitive [float], whose operations are specified by
      [FloatAxioms] against [SpecFloat].
    - A JavaScript string is a [string]; a character stands for the
      UTF-16 code unit of the same number, so the model covers the
      strings whose code units are below 256.
    - [null] is [None]; a thrown [Error] is [Throw message]. *)

From Stdlib Require Import Bool Arith ZArith Lia List.
From Stdlib Require Import Ascii String.
From Stdlib Require Import Floats.
From Stdlib Require Import Reals Lra.
Import ListNotations.

Local Open Scope string_scope.
Local Open Scope Z_scope.

(** ** ECMAScript built-ins *)

Module JS.

(** *** Strings *)

(** WhiteSpace and LineTerminator code units below 256: TAB, LF, VT,
    FF, CR, SP and NBSP. *)
Definition isWhiteSpace (c : ascii) : bool :=
  match nat_of_ascii c with
  | 9%nat | 10%nat | 11%nat | 12%nat | 13%nat | 32%nat | 160%nat => true
  | _ => false
  end.

(** [String.prototype.trimStart]. *)
Fixpoint trimStart (s : string) : string :=
  match s with
  | EmptyString => EmptyString
  | String c r => if isWhiteSpace c then trimStart r else s
  end.

(** [String.prototype.trimEnd]. *)
Fixpoint trimEnd (s : string) : string :=
  match s with
  | EmptyString => EmptyString
  | String c r =>
      match trimEnd r with
      | EmptyString => if isWhiteSpace c then EmptyString else String c EmptyString
      | r' => String c r'
      end
  end.

(** [String.prototype.trim]. *)
Definition trim (s : string) : string := trimEnd (trimStart s).

(** [String.prototype.slice(start, end)]: a negative index counts from
    the end, both are clamped to the string, and an empty range gives
    the empty string. *)
Definition sliceIndex (len i : Z) : Z :=
  if i <? 0 then Z.max (len + i) 0 else Z.min i len.

Definition slice (s : string) (start end_ : Z) : string :=
  let len := Z.of_nat (String.length s) in
  let from := sliceIndex len start in
  let to := sliceIndex len end_ in
  substring (Z.to_nat from) (Z.to_nat (Z.max (to - from) 0)) s.

(** [String.prototype.startsWith]. *)
Definition startsWith (s p : string) : bool := prefix p s.

(** [String.prototype.split] with a one-character separator: the
    result always has at least one part. *)
Fixpoint split (sep : ascii) (s : string) : list string :=
  match s with
  | EmptyString => [EmptyString]
  | String c r =>
      if Ascii.eqb c sep then EmptyString :: split sep r
      else match split sep r with
           | p :: ps => String c p :: ps
           | [] => [String c EmptyString]
           end
  end.

(** *** Numbers *)

Definition number := float.

(** The global [isNaN] on a number. *)
Definition isNaN (x : number) : bool := PrimFloat.is_nan x.

(** The global [isFinite] on a number. *)
Definition isFinite (x : number) : bool :=
  negb (PrimFloat.is_nan x) && negb (PrimFloat.is_infinity x).

(** The Number value of a non-negative decimal [m * 10^e]: the
    nearest double, ties to even, overflowing to [+Infinity].
    ECMAScript lets an engine cut a literal of more than twenty
    significant digits before it rounds; the conversion here is the
    exact one. *)
Definition roundDecimal (m e : Z) : spec_float :=
  match e with
  | Zneg k =>
      match m with
      | Zpos _ =>
          let '(q, e', l) :=
            SFdiv_core_binary prec emax m 0 (Zpos (Pos.pow 10 k)) 0 in
          binary_round_aux prec emax false q e' l
      | _ => S754_zero false
      end
  | _ => binary_normalize prec emax (m * 10 ^ e) 0 false
  end.

Definition isDigit (c : ascii) : bool :=
  ((48 <=? nat_of_ascii c) && (nat_of_ascii c <=? 57))%nat.

Definition digitValue (c : ascii) : Z := Z.of_nat (nat_of_ascii c) - 48.

(** DecimalDigits: the longest run of digits at the head of [s],
    accumulated onto [acc]; the count of digits read; the rest. *)
Fixpoint decimalDigits (s : string) (acc : Z) (n : Z) : Z * Z * string :=
  match s with
  | String c r =>
      if isDigit c then decimalDigits r (10 * acc + digitValue c) (n + 1)
      else (acc, n, s)
  | EmptyString => (acc, n, s)
  end.

(** ExponentPart, when one is present at the head of [s]: [e] or [E],
    an optional sign and at least one digit. *)
Definition exponentPart (s : string) : Z :=
  match s with
  | String c r =>
      if Ascii.eqb c "e" || Ascii.eqb c "E" then
        match r with
        | String "+" r' =>
            let '(v, n, _) := decimalDigits r' 0 0 in if 0 <? n then v else 0
        | String "-" r' =>
            let '(v, n, _) := decimalDigits r' 0 0 in if 0 <? n then - v else 0
        | _ =>
            let '(v, n, _) := decimalDigits r 0 0 in if 0 <? n then v else 0
        end
      else 0
  | EmptyString => 0
  end.

(** The longest prefix of [s] that is a StrUnsignedDecimalLiteral, as
    its Number value; [None] when no prefix is one. *)
Definition strUnsignedDecimalLiteral (s : string) : option spec_float :=
  if prefix "Infinity" s then Some (S754_infinity false)
  else
    let '(ip, ni, r1) := decimalDigits s 0 0 in
    match r1 with
    | String "." r2 =>
        let '(m, nf, r3) := decimalDigits r2 ip 0 in
        if (0 <? ni) || (0 <? nf)
        then Some (roundDecimal m (exponentPart r3 - nf))
        else None
    | _ =>
        if 0 <? ni then Some (roundDecimal ip (exponentPart r1)) else None
    end.

(** The global [parseFloat]: leading white space is skipped, then the
    longest prefix that is a StrDecimalLiteral is converted; [NaN]
    when there is none. *)
Definition parseFloat (s : string) : number :=
  match trimStart s with
  | String "-" r =>
      match strUnsignedDecimalLiteral r with
      | Some v => (- SF2Prim v)%float
      | None => nan
      end
  | String "+" r =>
      match strUnsignedDecimalLiteral r with
      | Some v => SF2Prim v
      | None => nan
      end
  | t =>
      match strUnsignedDecimalLiteral t with
      | Some v => SF2Prim v
      | None => nan
      end
  end.

End JS.

(** [String.prototype.match] with the global regular expression
    [/\([^)]+\)/g]: every match, left to right, each search resuming
    where the previous match ended. *)
Module PointRegex.

(** [[^)]+\)] at the head of [s]; [nonEmpty] tells whether a character
    of the class has been read already.  The result is the characters
    up to the first closing parenthesis and what follows it; the match
    fails when the string ends first, or when no character precedes
    the parenthesis. *)
Fixpoint body (s : string) (nonEmpty : bool) : option (string * string) :=
  match s with
  | EmptyString => None
  | String c r =>
      if Ascii.eqb c ")" then
        if nonEmpty then Some (EmptyString, r) else None
      else
        match body r true with
        | Some (b, rest) => Some (String c b, rest)
        | None => None
        end
  end.

(** The match that starts at the head of [s], and the rest of [s]. *)
Definition matchHere (s : string) : option (string * string) :=
  match s with
  | String "(" r =>
      match body r false with
      | Some (b, rest) => Some ("(" ++ b ++ ")", rest)
      | None => None
      end
  | _ => None
  end.

(** The search: at each index try a match; after a match resume behind
    it, otherwise move one character on.  Every step consumes at least
    one character, so [length s] steps are enough. *)
Fixpoint matchAllFrom (steps : nat) (s : string) : list string :=
  match steps with
  | O => []
  | S steps' =>
      match matchHere s with
      | Some (m, rest) => m :: matchAllFrom steps' rest
      | None =>
          match s with
          | EmptyString => []
          | String _ r => matchAllFrom steps' r
          end
      end
  end.

Definition matchAll (s : string) : list string :=
  matchAllFrom (String.length s) s.

(** The regular expression, read as a specification. *)

(** No closing parenthesis occurs in [s]: every character is in [[^)]]. *)
Fixpoint noClose (s : string) : bool :=
  match s with
  | EmptyString => true
  | String c r => negb (Ascii.eqb c ")") && noClose r
  end.

(** The strings the expression matches. *)
Inductive IsGroup : string -> Prop :=
| IsGroup_intro (b : string) :
    b <> EmptyString -> noClose b = true -> IsGroup ("(" ++ b ++ ")").

(** [Scan s ms]: [ms] are the matches of a global search through [s],
    the leftmost first, none overlapping the one before it. *)
Inductive Scan : string -> list string -> Prop :=
| Scan_end : Scan EmptyString []
| Scan_hit (m rest : string) (ms : list string) :
    IsGroup m -> Scan rest ms -> Scan (m ++ rest) (m :: ms)
| Scan_skip (c : ascii) (r : string) (ms : list string) :
    (forall m rest, IsGroup m -> String c r <> m ++ rest) ->
    Scan r ms -> Scan (String c r) ms.

End PointRegex.

(** ** rotate.ts *)

Import JS.

(** A value returned, or an [Error] thrown with its message. *)
Inductive completion (A : Type) : Type :=
| Return (value : A)
| Throw (message : string).
Arguments Return {A} value.
Arguments Throw {A} message.

(** A [number[]] of two elements. *)
Definition Point : Type := number * number.

(** The double quote character of the error messages. *)
Definition dq : string := String (ascii_of_nat 34) EmptyString.

(** [function parsePoint(pointStr: string): number[] | null] *)
Definition parsePoint (pointStr : string) : option Point :=
  let clean := trim (slice pointStr 1 (-1)) in
  let parts := map trim (split "," clean) in
  match parts with
  | [p0; p1] =>
      let x := parseFloat p0 in
      let y := parseFloat p1 in
      if isNaN x || isNaN y then None else Some (x, y)
  | _ => None
  end.

(** The body of the [for] loop over the matches: [points.push(parsed)]
    when [parsePoint] gives a point. *)
Definition pushParsed (points : list Point) (pStr : string) : list Point :=
  match parsePoint pStr with
  | Some parsed => points ++ [parsed]
  | None => points
  end.

(** The points collected from the trimmed argument, before the length
    test. *)
Definition collectPoints (pointsStr : string) : list Point :=
  if startsWith pointsStr "[" then
    let inner := trim (slice pointsStr 1 (-1)) in
    let pointMatches := PointRegex.matchAll inner in
    fold_left pushParsed pointMatches []
  else if startsWith pointsStr "(" then
    pushParsed [] pointsStr
  else [].

Definition invalidPoints (pointsStr : string) : string :=
  "Invalid points format: " ++ pointsStr ++ ". Use " ++ dq ++ "(x,y)" ++ dq
    ++ " or " ++ dq ++ "[(x,y) (x,y)]" ++ dq ++ ".".

(** [function parsePoints(pointsStr: string): number[][]] *)
Definition parsePoints (pointsStr : string) : completion (list Point) :=
  let pointsStr := trim pointsStr in
  let points := collectPoints pointsStr in
  if Nat.eqb (List.length points) 0 then Throw (invalidPoints pointsStr)
  else Return points.

Definition invalidCenter (centerStr : string) : string :=
  "Invalid center format: " ++ centerStr ++ ". Use " ++ dq ++ "(cx,cy)" ++ dq
    ++ " or pass separate cx cy.".

(** [function parseCenter(centerStr: string): [number, number]] *)
Definition parseCenter (centerStr : string) : completion Point :=
  if startsWith centerStr "(" then
    match parsePoint centerStr with
    | Some parsed => Return (fst parsed, snd parsed)
    | None => Throw (invalidCenter centerStr)
    end
  else Throw (invalidCenter centerStr).

(** [Math.PI]. *)
Definition Math_PI : number := 0x1.921fb54442d18p+1%float.

Section Rotate.

(** [Math.cos] and [Math.sin] are implementation-approximated in
    ECMAScript: the engine's functions are parameters. *)
Variables Math_cos Math_sin : number -> number.

(** [function rotate(x, y, angle, cx, cy): [number, number]] *)
Definition rotate (x y angle cx cy : number) : number * number :=
  let radians := (angle * Math_PI / 180)%float in
  let cos := Math_cos radians in
  let sin := Math_sin radians in
  let nx := (cos * (x - cx) - sin * (y - cy) + cx)%float in
  let ny := (sin * (x - cx) + cos * (y - cy) + cy)%float in
  (nx, ny).

End Rotate.

(** ** Vocabulary of the statements *)

(** [f] applied to the first element of a list, and to the last one. *)
Definition mapHead {A} (f : A -> A) (l : list A) : list A :=
  match l with
  | [] => []
  | x :: l' => f x :: l'
  end.

Fixpoint mapLast {A} (f : A -> A) (l : list A) : list A :=
  match l with
  | [] => []
  | [x] => [f x]
  | x :: l' => x :: mapLast f l'
  end.

(** The two trimmed parts of the interior of [s], when it has exactly
    two. *)
Definition twoParts (s : string) : option (string * string) :=
  match map trim (split "," (slice s 1 (-1))) with
  | [p0; p1] => Some (p0, p1)
  | _ => None
  end.

(** What one candidate contributes to the result. *)
Definition parsedOf (c : string) : list Point :=
  match parsePoint c with
  | Some p => [p]
  | None => []
  end.

(** The interior of a bracketed argument, as the search sees it. *)
Definition bracketInterior (t : string) : string := trim (slice t 1 (-1)).

(** Neither coordinate of [p] is [NaN]. *)
Definition notNaN (p : Point) : Prop :=
  isNaN (fst p) = false /\ isNaN (snd p) = false.

(** Doubles as [SpecFloat] describes them. *)
Module Binary64.

(** A number that is neither [NaN] nor infinite is a zero or has a
    mantissa and an exponent. *)
Definition finiteSF (x : spec_float) : bool :=
  match x with
  | S754_zero _ | S754_finite _ _ _ => true
  | _ => false
  end.

(** The real number a finite double stands for. *)
Definition SF2R (x : spec_float) : R :=
  match x with
  | S754_finite s m e =>
      if e <? 0 then (IZR (cond_Zopp s (Zpos m)) / IZR (2 ^ (- e)))%R
      else (IZR (cond_Zopp s (Zpos m)) * IZR (2 ^ e))%R
  | _ => 0%R
  end.

Definition toR (x : number) : R := SF2R (Prim2SF x).

End Binary64.

(** [const radians = (angle * Math.PI) / 180]. *)
Definition radians (angle : number) : number := (angle * Math_PI / 180)%float.

(** [f], at the double [r], returns a finite double within [eps] of
    the real function [g] at the real number [r] stands for. *)
Definition accurate (f : number -> number) (g : R -> R) (eps : R) (r : number)
  : Prop :=
  isFinite (f r) = true /\
  (Rabs (Binary64.toR (f r) - g (Binary64.toR r)) <= eps)%R.

(** Both coordinates of [p] are finite and within [tol] of [a] and [b]. *)
Definition within (tol : R) (p : number * number) (a b : R) : Prop :=
  isFinite (fst p) = true /\ isFinite (snd p) = true /\
  (Rabs (Binary64.toR (fst p) - a) <= tol)%R /\
  (Rabs (Binary64.toR (snd p) - b) <= tol)%R.

(** An engine for the three arguments: doubles close to the real
    cosine and sine there, and any value elsewhere. *)
Definition sampleCos (r : number) : number :=
  if (r =? radians 90)%float then 0x1.1a62633145c07p-54%float
  else if (r =? radians 180)%float then (-1)%float
  else if (r =? radians (-90))%float then 0x1.1a62633145c07p-54%float
  else 1%float.

Definition sampleSin (r : number) : number :=
  if (r =? radians 90)%float then 1%float
  else if (r =? radians 180)%float then 0x1.1a62633145c07p-53%float
  else if (r =? radians (-90))%float then (-1)%float
  else 0%float.

(** ** rotateCmd.ts *)

(** The built-ins of the output formatting. *)
Module JSFormat.

(** The decimal digits of a natural number, the most significant first;
    [fuel] bounds their count. *)
Definition digitChar (d : Z) : ascii := ascii_of_nat (48 + Z.to_nat d).

Fixpoint decimalFrom (fuel : nat) (n : Z) : string :=
  match fuel with
  | O => EmptyString
  | S fuel' =>
      if n <? 10 then String (digitChar n) EmptyString
      else decimalFrom fuel' (n / 10) ++ String (digitChar (n mod 10)) EmptyString
  end.

(** A number has no more decimal digits than binary ones. *)
Definition decimal (n : Z) : string :=
  decimalFrom (S (Z.to_nat (Z.log2 n))) n.

Fixpoint zeros (k : nat) : string :=
  match k with
  | O => EmptyString
  | S k' => String "0" (zeros k')
  end.

(** Steps 10 and 11 of [Number.prototype.toFixed] for the non-negative
    rational [num / den] and [f] fraction digits: [n] is the integer
    nearest to [num / den * 10^f], the larger one of two; its digits
    are padded with zeros to [f + 1] of them and the point is set
    before the last [f]. *)
Definition fixedDigits (num den : Z) (f : nat) : string :=
  let n := (2 * num * 10 ^ Z.of_nat f + den) / (2 * den) in
  let m := decimal n in
  let m := if (String.length m <=? f)%nat
           then zeros (f + 1 - String.length m) ++ m else m in
  let k := String.length m in
  match f with
  | O => m
  | _ => substring 0 (k - f) m ++ "." ++ substring (k - f) f m
  end.

(** The regular expression [/\.?0+$/] matches the whole of [s]: with
    the point left out, or with the point taken. *)
Fixpoint allZeros (s : string) : bool :=
  match s with
  | EmptyString => true
  | String c r => Ascii.eqb c "0" && allZeros r
  end.

(** [0+] matches the whole of [s]. *)
Definition someZeros (s : string) : bool :=
  match s with
  | EmptyString => false
  | String c r => Ascii.eqb c "0" && allZeros r
  end.

Definition matchesTail (s : string) : bool :=
  someZeros s ||
  match s with
  | String c r => Ascii.eqb c "." && someZeros r
  | EmptyString => false
  end.

(** [s.replace(/\.?0+$/, String())] with the empty replacement: the
    leftmost match reaches the end of [s], and [s] is cut there. *)
Fixpoint replaceTrailingZeros (s : string) : string :=
  if matchesTail s then EmptyString
  else match s with
       | EmptyString => EmptyString
       | String c r => String c (replaceTrailingZeros r)
       end.

(** [Array.prototype.join]. *)
Definition join (sep : string) (l : list string) : string := concat sep l.

End JSFormat.

(** What the action of the command does: one line on the standard
    output, or one line on the standard error followed by
    [process.exit(1)]. *)
Inductive outcome : Type :=
| Logged (line : string)
| Exited (errorLine : string).

Section RotateCmd.

Import JSFormat.

Variables Math_cos Math_sin : number -> number.

(** [Number::toString] of a finite number is the engine's; [toFixed]
    calls it for the numbers from [10^21] on. *)
Variable Number_toString : number -> string.

(** [Number.prototype.toFixed(f)], for [f] from 0 to 100. *)
Definition toFixed (x : number) (f : nat) : string :=
  match Prim2SF x with
  | S754_nan => "NaN"
  | S754_infinity s => if s then "-Infinity" else "Infinity"
  | S754_zero _ => fixedDigits 0 1 f
  | S754_finite s m e =>
      let num := if e <? 0 then Zpos m else Zpos m * 2 ^ e in
      let den := if e <? 0 then 2 ^ (- e) else 1 in
      let sign := if s then "-" else EmptyString in
      if 10 ^ 21 * den <=? num then sign ++ Number_toString (abs x)
      else sign ++ fixedDigits num den f
  end.

(** [const formatCoord = (num: number) =>
      num.toFixed(10).replace(/\.?0+$/, String())] *)
Definition formatCoord (num : number) : string :=
  replaceTrailingZeros (toFixed num 10).

(** One group of the output. *)
Definition formatPoint (p : number * number) : string :=
  "(" ++ formatCoord (fst p) ++ ", " ++ formatCoord (snd p) ++ ")".

(** The action of [rotateCmd].  The test [points.length === 1] is made
    on [rotatedPoints], which [map] gives the same length. *)
Definition rotateAction (pointsStr angleStr centerStr : string) : outcome :=
  match parsePoints pointsStr with
  | Throw message => Exited ("Error: " ++ message)
  | Return points =>
      let angle := parseFloat angleStr in
      match parseCenter centerStr with
      | Throw message => Exited ("Error: " ++ message)
      | Return (cx, cy) =>
          if isNaN angle || isNaN cx || isNaN cy then
            Exited ("Error: " ++ "Angle or center must be valid numbers.")
          else
            let rotatedPoints :=
              map (fun p => rotate Math_cos Math_sin (fst p) (snd p) angle cx cy)
                  points in
            match rotatedPoints with
            | [p] => Logged ("New coordinates: " ++ formatPoint p)
            | _ =>
                Logged ("New coordinates: ["
                          ++ join " " (map formatPoint rotatedPoints) ++ "]")
            end
      end
  end.

End RotateCmd.

(** ** Vocabulary of the further statements *)

(** Every character of [s] is white space. *)
Fixpoint allWhite (s : string) : bool :=
  match s with
  | EmptyString => true
  | String c r => isWhiteSpace c && allWhite r
  end.

(** The [w] last decimal digits of [r], zeros included. *)
Fixpoint fixedWidth (w : nat) (r : Z) : string :=
  match w with
  | O => EmptyString
  | S w' =>
      fixedWidth w' (r / 10)
        ++ String (JSFormat.digitChar (r mod 10)) EmptyString
  end.

(** The digits of [n], padded with zeros to [w + 1] of them. *)
Definition padded (w : nat) (n : Z) : string :=
  if (String.length (JSFormat.decimal n) <=? w)%nat
  then JSFormat.zeros (w + 1 - String.length (JSFormat.decimal n))
         ++ JSFormat.decimal n
  else JSFormat.decimal n.

(** The same digits without the zeros at their end. *)
Fixpoint fractionDigits (w : nat) (r : Z) : string :=
  match w with
  | O => EmptyString
  | S w' => if r mod 10 =? 0 then fractionDigits w' (r / 10) else fixedWidth w r
  end.

(** The absolute value of a finite double, as a fraction. *)
Definition magnitude (x : number) : Z * Z :=
  match Prim2SF x with
  | S754_finite _ m e => if e <? 0 then (Zpos m, 2 ^ (- e)) else (Zpos m * 2 ^ e, 1)
  | _ => (0, 1)
  end.

(** The integer nearest to [|x| * 10^10], the larger one of two. *)
Definition scaled (x : number) : Z :=
  (2 * fst (magnitude x) * 10 ^ 10 + snd (magnitude x)) / (2 * snd (magnitude x)).

(** The sign that [toFixed] prints: none for the zeros. *)
Definition signText (x : number) : string :=
  match Prim2SF x with
  | S754_finite true _ _ => "-"
  | _ => EmptyString
  end.

(** The integer a double holds, when it holds one. *)
Definition integerOf (x : number) : option Z :=
  match Prim2SF x with
  | S754_zero _ => Some 0
  | S754_finite s m e =>
      if e <? 0 then
        if Zpos m mod 2 ^ (- e) =? 0
        then Some (cond_Zopp s (Zpos m / 2 ^ (- e))) else None
      else Some (cond_Zopp s (Zpos m * 2 ^ e))
  | _ => None
  end.

(** The occurrences of [c] in [s]. *)
Fixpoint countChar (c : ascii) (s : string) : nat :=
  match s with
  | EmptyString => O
  | String d r => if Ascii.eqb d c then S (countChar c r) else countChar c r
  end.

(** * Properties *)

(** ** Strings *)

Lemma substring_0_app (s t : string) :
  substring 0 (String.length s) (s ++ t) = s.
Proof.
  induction s as [|c s IH]; simpl.
  - destruct t; reflexivity.
  - now rewrite IH.
Qed.

Lemma length_app (s t : string) :
  String.length (s ++ t) = (String.length s + String.length t)%nat.
Proof. induction s as [|c s IH]; simpl; [reflexivity | now rewrite IH]. Qed.

(** [slice(1, -1)] drops the first and the last character, whatever
    they are. *)
Lemma slice_1_m1 (a b : ascii) (inner : string) :
  slice (String a (inner ++ String b EmptyString)) 1 (-1) = inner.
Proof.
  unfold slice, sliceIndex.
  set (len := Z.of_nat (String.length (String a (inner ++ String b EmptyString)))).
  assert (Hlen : len = Z.of_nat (String.length inner) + 2).
  { unfold len. simpl String.length. rewrite length_app. simpl. lia. }
  change (1 <? 0) with false. change (-1 <? 0) with true. cbv iota.
  replace (Z.to_nat (Z.min 1 len)) with 1%nat by lia.
  replace (Z.to_nat (Z.max (Z.max (len + -1) 0 - Z.min 1 len) 0))
    with (String.length inner) by lia.
  simpl. apply substring_0_app.
Qed.

(** Strings of fewer than two characters have an empty [slice(1, -1)]. *)
Lemma slice_1_m1_short (s : string) :
  (String.length s <= 2)%nat -> slice s 1 (-1) = EmptyString.
Proof.
  intros H. destruct s as [|a [|b [|c s]]]; try reflexivity.
  simpl in H. lia.
Qed.

(** *** Trimming and splitting *)

Lemma comma_not_space (c : ascii) :
  isWhiteSpace c = true -> Ascii.eqb c "," = false.
Proof. destruct c as [[] [] [] [] [] [] [] []]; intros H; try reflexivity; discriminate H. Qed.

Lemma split_not_nil (sep : ascii) (s : string) : split sep s <> [].
Proof.
  destruct s as [|c r]; simpl; [discriminate|].
  destruct (Ascii.eqb c sep); [discriminate|].
  destruct (split sep r); discriminate.
Qed.

Lemma split_single_empty (sep : ascii) (s : string) :
  split sep s = [EmptyString] -> s = EmptyString.
Proof.
  destruct s as [|c r]; [reflexivity|]. simpl.
  destruct (Ascii.eqb c sep).
  - intros H. inversion H. now destruct (split_not_nil sep r).
  - destruct (split sep r); discriminate.
Qed.

Lemma trimStart_idem (s : string) : trimStart (trimStart s) = trimStart s.
Proof.
  induction s as [|c r IH]; simpl; [reflexivity|].
  destruct (isWhiteSpace c) eqn:E; [assumption|]. simpl. now rewrite E.
Qed.

Lemma trimEnd_idem (s : string) : trimEnd (trimEnd s) = trimEnd s.
Proof.
  induction s as [|c r IH]; simpl; [reflexivity|].
  destruct (trimEnd r) as [|c' r'] eqn:E.
  - destruct (isWhiteSpace c) eqn:Ec; simpl; [reflexivity | now rewrite Ec].
  - cbn [trimEnd] in IH |- *. fold trimEnd in IH |- *.
    change (trimEnd (String c (String c' r')))
      with (match trimEnd (String c' r') with
            | EmptyString =>
                if isWhiteSpace c then EmptyString else String c EmptyString
            | r0 => String c r0
            end).
    now rewrite IH.
Qed.

Lemma trim_comm (s : string) : trimStart (trimEnd s) = trimEnd (trimStart s).
Proof.
  induction s as [|c r IH]; simpl; [reflexivity|].
  destruct (isWhiteSpace c) eqn:Ec.
  - destruct (trimEnd r) as [|c' r'] eqn:E.
    + now rewrite <- IH.
    + rewrite <- IH. simpl. now rewrite Ec.
  - destruct (trimEnd r) as [|c' r'] eqn:E; simpl; rewrite Ec, ?E; reflexivity.
Qed.

Lemma trim_trimStart (s : string) : trim (trimStart s) = trim s.
Proof. unfold trim. now rewrite trimStart_idem. Qed.

Lemma trim_trimEnd (s : string) : trim (trimEnd s) = trim s.
Proof. unfold trim. now rewrite trim_comm, trimEnd_idem. Qed.

Lemma split_trimStart (s : string) :
  split "," (trimStart s) = mapHead trimStart (split "," s).
Proof.
  induction s as [|c r IH]; [reflexivity|].
  cbn [trimStart]. destruct (isWhiteSpace c) eqn:Ec.
  - cbn [split]. rewrite (comma_not_space c Ec), IH.
    destruct (split "," r) as [|q qs] eqn:E; [now destruct (split_not_nil _ _ E)|].
    simpl. now rewrite Ec.
  - cbn [split]. destruct (Ascii.eqb c ","); [reflexivity|].
    destruct (split "," r) as [|q qs] eqn:E; simpl; now rewrite Ec.
Qed.

Lemma split_trimEnd (s : string) :
  split "," (trimEnd s) = mapLast trimEnd (split "," s).
Proof.
  induction s as [|c r IH]; [reflexivity|].
  cbn [trimEnd]. destruct (trimEnd r) as [|c' r'] eqn:Er.
  - (* nothing but white space follows [c] *)
    destruct (split "," r) as [|q [|q' qs]] eqn:E;
      [now destruct (split_not_nil _ _ E) | | simpl in IH; destruct qs; discriminate IH].
    simpl in IH. injection IH as IH. symmetry in IH.
    cbn [split]. rewrite E.
    destruct (isWhiteSpace c) eqn:Ec.
    + rewrite (comma_not_space c Ec). simpl. now rewrite IH, Ec.
    + destruct (Ascii.eqb c ",") eqn:Ecomma; simpl; rewrite ?Ecomma, IH, ?Ec; reflexivity.
  - rewrite <- Er in IH |- *. cbn [split]. rewrite IH.
    destruct (split "," r) as [|q qs] eqn:E; [now destruct (split_not_nil _ _ E)|].
    destruct (Ascii.eqb c ","); [reflexivity|].
    destruct qs as [|q' qs].
    + simpl. simpl in IH.
      destruct (trimEnd q) as [|d q0] eqn:Eq; [|reflexivity].
      apply split_single_empty in IH. congruence.
    + reflexivity.
Qed.

Lemma map_trim_mapHead (l : list string) :
  map trim (mapHead trimStart l) = map trim l.
Proof. destruct l; simpl; [reflexivity | now rewrite trim_trimStart]. Qed.

Lemma map_trim_mapLast (l : list string) :
  map trim (mapLast trimEnd l) = map trim l.
Proof.
  induction l as [|x [|y l] IH]; simpl; [reflexivity | now rewrite trim_trimEnd |].
  simpl in IH. now rewrite IH.
Qed.

(** The trimmed parts do not depend on the interior being trimmed as a
    whole first. *)
Lemma parts_trim (s : string) :
  map trim (split "," (trim s)) = map trim (split "," s).
Proof.
  unfold trim at 2.
  now rewrite split_trimEnd, map_trim_mapLast, split_trimStart, map_trim_mapHead.
Qed.

(** ** The regular expression *)

Module PointRegexFacts.
Import PointRegex.

Lemma body_Some (s : string) : forall ne b rest,
  body s ne = Some (b, rest) ->
  s = b ++ String ")" rest /\ noClose b = true /\ (ne = false -> b <> EmptyString).
Proof.
  induction s as [|c r IH]; intros ne b rest H; simpl in H; [discriminate|].
  destruct (Ascii.eqb c ")") eqn:Ec.
  - apply Ascii.eqb_eq in Ec; subst c.
    destruct ne; [|discriminate]. inversion H; subst.
    repeat split. discriminate.
  - destruct (body r true) as [[b' rest']|] eqn:Eb; [|discriminate].
    inversion H; subst. destruct (IH _ _ _ Eb) as (-> & Hn & _).
    repeat split.
    + simpl. now rewrite Ec, Hn.
    + discriminate.
Qed.

Lemma body_None (s : string) : forall ne,
  body s ne = None ->
  forall b rest, noClose b = true -> s = b ++ String ")" rest ->
  ne = false /\ b = EmptyString.
Proof.
  induction s as [|c r IH]; intros ne H b rest Hn Hs.
  - destruct b; discriminate.
  - simpl in H. destruct (Ascii.eqb c ")") eqn:Ec.
    + destruct ne; [discriminate|]. split; [reflexivity|].
      destruct b as [|c' b']; [reflexivity|].
      simpl in Hs. inversion Hs; subst c'. simpl in Hn.
      rewrite Ec in Hn. discriminate.
    + destruct (body r true) as [[b' rest']|] eqn:Eb; [discriminate|].
      destruct b as [|c' b'].
      * simpl in Hs. inversion Hs; subst c.
        rewrite Ascii.eqb_refl in Ec. discriminate.
      * simpl in Hs. inversion Hs; subst. simpl in Hn.
        apply andb_prop in Hn as [_ Hn].
        destruct (IH true Eb b' rest Hn eq_refl). discriminate.
Qed.

Lemma body_group (b rest : string) :
  b <> EmptyString -> noClose b = true ->
  body (b ++ String ")" rest) false = Some (b, rest).
Proof.
  intros Hb Hn.
  destruct (body (b ++ String ")" rest) false) as [[b' rest']|] eqn:E.
  - apply body_Some in E as (E & Hn' & _).
    revert b' Hn' E. clear Hb.
    induction b as [|c b IH]; intros [|c' b'] Hn' E; simpl in *.
    + now inversion E.
    + inversion E; subst c'. discriminate.
    + inversion E; subst c. discriminate.
    + inversion E; subst c'.
      apply andb_prop in Hn as [_ Hn]. apply andb_prop in Hn' as [_ Hn'].
      specialize (IH Hn b' Hn' H1). now inversion IH.
  - destruct (body_None _ _ E b rest Hn eq_refl) as [_ ->]. now destruct Hb.
Qed.

Lemma matchHere_Some (s m rest : string) :
  matchHere s = Some (m, rest) -> IsGroup m /\ s = m ++ rest.
Proof.
  unfold matchHere. destruct s as [|c r]; [discriminate|].
  destruct (Ascii.eqb c "(") eqn:Ec.
  - apply Ascii.eqb_eq in Ec; subst c.
    destruct (body r false) as [[b rest']|] eqn:Eb; [|discriminate].
    intros H; inversion H; subst.
    apply body_Some in Eb as (-> & Hn & Hb). split.
    + constructor; auto.
    + simpl. f_equal. clear. induction b; simpl; congruence.
  - intros H. exfalso. revert H.
    destruct c as [[] [] [] [] [] [] [] []]; try discriminate.
Qed.

Lemma matchHere_group (m rest : string) :
  IsGroup m -> matchHere (m ++ rest) = Some (m, rest).
Proof.
  intros [b Hb Hn]. simpl.
  replace ((b ++ ")") ++ rest) with (b ++ String ")" rest)
    by (clear; induction b; simpl; congruence).
  now rewrite body_group.
Qed.

Lemma matchHere_None (s : string) :
  matchHere s = None -> forall m rest, IsGroup m -> s <> m ++ rest.
Proof.
  intros H m rest Hm ->. rewrite matchHere_group in H by assumption.
  discriminate.
Qed.

Lemma IsGroup_length (m : string) : IsGroup m -> (3 <= String.length m)%nat.
Proof.
  intros [b Hb _]. simpl. rewrite length_app. simpl.
  destruct b; [now destruct Hb | simpl; lia].
Qed.

(** The search finds the matches the specification describes ... *)
Lemma matchAllFrom_Scan (n : nat) : forall s,
  (String.length s <= n)%nat -> Scan s (matchAllFrom n s).
Proof.
  induction n as [|n IH]; intros s Hl.
  - destruct s; [constructor | simpl in Hl; lia].
  - simpl. destruct (matchHere s) as [[m rest]|] eqn:E.
    + destruct (matchHere_Some _ _ _ E) as [Hm ->].
      constructor; [assumption|]. apply IH.
      apply IsGroup_length in Hm. rewrite length_app in Hl. lia.
    + destruct s as [|c r]; [constructor|].
      apply Scan_skip.
      * now apply matchHere_None.
      * apply IH. simpl in Hl. lia.
Qed.

(** ... and no others. *)
Lemma Scan_matchAllFrom (s : string) (ms : list string) :
  Scan s ms -> forall n, (String.length s <= n)%nat -> matchAllFrom n s = ms.
Proof.
  induction 1 as [|m rest ms Hm _ IH|c r ms Hc _ IH]; intros n Hl.
  - destruct n; reflexivity.
  - pose proof (IsGroup_length _ Hm). rewrite length_app in Hl.
    destruct n as [|n]; [lia|]. simpl.
    rewrite matchHere_group by assumption. f_equal. apply IH. lia.
  - destruct n as [|n]; [simpl in Hl; lia|].
    cbn [matchAllFrom].
    destruct (matchHere (String c r)) as [[m rest]|] eqn:E.
    + destruct (matchHere_Some _ _ _ E) as [Hm Hs]. now destruct (Hc m rest Hm).
    + apply IH. simpl in Hl. lia.
Qed.

Theorem matchAll_Scan (s : string) (ms : list string) :
  Scan s ms <-> matchAll s = ms.
Proof.
  split.
  - intros H. now apply Scan_matchAllFrom.
  - intros <-. now apply matchAllFrom_Scan.
Qed.

End PointRegexFacts.

(** ** parsePoint *)

Lemma parsePoint_unfold (s : string) :
  parsePoint s =
  match twoParts s with
  | Some (p0, p1) =>
      if isNaN (parseFloat p0) || isNaN (parseFloat p1) then None
      else Some (parseFloat p0, parseFloat p1)
  | None => None
  end.
Proof.
  unfold parsePoint, twoParts. rewrite parts_trim.
  destruct (map trim (split "," (slice s 1 (-1)))) as [|p0 [|p1 [|p2 l]]];
    reflexivity.
Qed.

(** C3. [parsePoint] is total: it returns a point or [null].  It returns
    the point [(x, y)] exactly when the interior left by removing the
    first and last character splits on commas into exactly two parts
    whose trimmed texts [parseFloat] reads as the numbers [x] and [y],
    neither of them [NaN]; it returns [null] in every other case.  The
    examples of the specification evaluate as stated; a part is read
    the way [parseFloat] reads it, from its longest leading decimal
    literal. *)
Theorem parsePoint_spec :
  (forall s x y,
      parsePoint s = Some (x, y) <->
      exists p0 p1,
        map trim (split "," (slice s 1 (-1))) = [p0; p1] /\
        parseFloat p0 = x /\ parseFloat p1 = y /\
        isNaN x = false /\ isNaN y = false) /\
  (forall s,
      parsePoint s = None <->
      ~ exists p0 p1,
          map trim (split "," (slice s 1 (-1))) = [p0; p1] /\
          isNaN (parseFloat p0) = false /\ isNaN (parseFloat p1) = false) /\
  parsePoint "(50,96)" = Some (50, 96)%float /\
  parsePoint "( 50 , 96 )" = Some (50, 96)%float /\
  parsePoint "(50,abc)" = None /\
  parsePoint "(50)" = None /\
  parsePoint "(50,96,10)" = None /\
  parsePoint "invalid" = None /\
  parsePoint "(50abc, 96.5e1x)" = Some (50, 965)%float.
Proof.
  split; [|split].
  - intros s x y. rewrite parsePoint_unfold. unfold twoParts.
    destruct (map trim (split "," (slice s 1 (-1)))) as [|p0 [|p1 [|p2 l]]];
      try (split; [discriminate | intros (? & ? & ? & _); discriminate]).
    destruct (isNaN (parseFloat p0)) eqn:E0, (isNaN (parseFloat p1)) eqn:E1;
      simpl; split;
      try discriminate;
      try (intros (q0 & q1 & Hq & <- & <- & H0 & H1);
           injection Hq as <- <-; congruence).
    intros H. injection H as <- <-. exists p0, p1. auto.
  - intros s. rewrite parsePoint_unfold. unfold twoParts.
    destruct (map trim (split "," (slice s 1 (-1)))) as [|p0 [|p1 [|p2 l]]];
      try (split; [intros _ (? & ? & ? & _); discriminate | reflexivity]).
    destruct (isNaN (parseFloat p0)) eqn:E0, (isNaN (parseFloat p1)) eqn:E1;
      simpl; split;
      try reflexivity;
      try (intros _ (q0 & q1 & Hq & H0 & H1); injection Hq as <- <-; congruence).
    + discriminate.
    + intros H. destruct H. exists p0, p1. auto.
  - repeat split; vm_compute; reflexivity.
Qed.

(** C9. The first and the last character of the argument are dropped
    without being looked at: [parsePoint] gives the same result
    whatever they are, so it also returns points for strings that no
    parentheses enclose. *)
Theorem parsePoint_ignores_delimiters :
  (forall (a b : ascii) (inner : string),
      parsePoint (String a (inner ++ String b EmptyString)) =
      parsePoint ("(" ++ inner ++ ")")) /\
  parsePoint "x50,96y" = Some (50, 96)%float /\
  parsePoint "50,96!" = Some (0, 96)%float.
Proof.
  split.
  - intros a b inner. unfold parsePoint.
    change ("(" ++ inner ++ ")") with (String "(" (inner ++ String ")" EmptyString)).
    now rewrite !slice_1_m1.
  - split; vm_compute; reflexivity.
Qed.

(** ** parsePoints *)

(** The loop over the matches appends, in order, the point of every
    candidate that parses. *)
Lemma fold_pushParsed (cands : list string) : forall acc,
  fold_left pushParsed cands acc = (acc ++ flat_map parsedOf cands)%list.
Proof.
  induction cands as [|c cands IH]; intros acc; simpl.
  - now rewrite app_nil_r.
  - rewrite IH. unfold pushParsed, parsedOf.
    destruct (parsePoint c); [now rewrite <- app_assoc | reflexivity].
Qed.

Lemma collect_bracket (t : string) :
  startsWith t "[" = true ->
  collectPoints t = flat_map parsedOf (PointRegex.matchAll (bracketInterior t)).
Proof.
  intros H. unfold collectPoints. rewrite H. now rewrite fold_pushParsed.
Qed.

Lemma startsWith_char (t : string) (a : ascii) :
  startsWith t (String a EmptyString) = true <-> exists r, t = String a r.
Proof.
  unfold startsWith. destruct t as [|c r]; cbn [prefix].
  - split; [discriminate | intros [r H]; discriminate H].
  - destruct (ascii_dec a c) as [<-|Hn].
    + split; [eauto | now destruct r].
    + split; [discriminate | intros [r' H]; injection H as H _; now destruct Hn].
Qed.

Lemma collect_paren (t : string) :
  startsWith t "(" = true -> collectPoints t = parsedOf t.
Proof.
  intros H. unfold collectPoints. rewrite H.
  destruct (startsWith t "[") eqn:E; [|reflexivity].
  apply startsWith_char in E as [r E]. apply startsWith_char in H as [r' H].
  congruence.
Qed.

Lemma collect_other (t : string) :
  startsWith t "[" = false -> startsWith t "(" = false -> collectPoints t = [].
Proof. intros H1 H2. unfold collectPoints. now rewrite H1, H2. Qed.

Lemma parsePoints_unfold (s : string) :
  parsePoints s =
  match collectPoints (trim s) with
  | [] => Throw (invalidPoints (trim s))
  | pts => Return pts
  end.
Proof. unfold parsePoints. now destruct (collectPoints (trim s)). Qed.

Lemma flat_map_parsedOf_nil (cands : list string) :
  flat_map parsedOf cands = [] <-> forall c, In c cands -> parsePoint c = None.
Proof.
  induction cands as [|c cands IH]; simpl.
  - split; [intros _ c [] | reflexivity].
  - unfold parsedOf at 1. destruct (parsePoint c) eqn:E; simpl.
    + split; [discriminate|]. intros H. rewrite (H c) in E by auto. discriminate.
    + rewrite IH. split.
      * intros H c' [<-|Hc]; auto.
      * intros H c' Hc. auto.
Qed.

(** C4. [parsePoints] throws when no point was collected: when the
    trimmed argument is empty, when it starts with [(] and is not a
    point, when it starts with [[] and none of the candidates inside
    the brackets is a point, and when it starts with neither.  These
    are the only cases in which it throws, and the message is the one
    given, built around the trimmed argument as it stands. *)
Theorem parsePoints_error :
  (forall s,
      trim s = EmptyString \/
      (startsWith (trim s) "(" = true /\ parsePoint (trim s) = None) \/
      (startsWith (trim s) "[" = true /\
       forall c, In c (PointRegex.matchAll (bracketInterior (trim s))) ->
                 parsePoint c = None) \/
      (startsWith (trim s) "[" = false /\ startsWith (trim s) "(" = false) ->
      parsePoints s =
      Throw ("Invalid points format: " ++ trim s ++ ". Use " ++ dq ++ "(x,y)"
               ++ dq ++ " or " ++ dq ++ "[(x,y) (x,y)]" ++ dq ++ ".")) /\
  (forall s m,
      parsePoints s = Throw m ->
      m = invalidPoints (trim s) /\
      ((startsWith (trim s) "(" = true /\ parsePoint (trim s) = None) \/
       (startsWith (trim s) "[" = true /\
        forall c, In c (PointRegex.matchAll (bracketInterior (trim s))) ->
                  parsePoint c = None) \/
       (startsWith (trim s) "[" = false /\ startsWith (trim s) "(" = false))) /\
  parsePoints EmptyString =
    Throw ("Invalid points format: . Use " ++ dq ++ "(x,y)" ++ dq ++ " or "
             ++ dq ++ "[(x,y) (x,y)]" ++ dq ++ ".") /\
  parsePoints "(50,abc)" =
    Throw ("Invalid points format: (50,abc). Use " ++ dq ++ "(x,y)" ++ dq
             ++ " or " ++ dq ++ "[(x,y) (x,y)]" ++ dq ++ ".") /\
  parsePoints "  [invalid] " =
    Throw ("Invalid points format: [invalid]. Use " ++ dq ++ "(x,y)" ++ dq
             ++ " or " ++ dq ++ "[(x,y) (x,y)]" ++ dq ++ ".") /\
  parsePoints "50,96" =
    Throw ("Invalid points format: 50,96. Use " ++ dq ++ "(x,y)" ++ dq
             ++ " or " ++ dq ++ "[(x,y) (x,y)]" ++ dq ++ ".").
Proof.
  split; [|split].
  - intros s H. rewrite parsePoints_unfold.
    change ("Invalid points format: " ++ trim s ++ ". Use " ++ dq ++ "(x,y)"
              ++ dq ++ " or " ++ dq ++ "[(x,y) (x,y)]" ++ dq ++ ".")
      with (invalidPoints (trim s)).
    destruct H as [H|[[H1 H2]|[[H1 H2]|[H1 H2]]]].
    + now rewrite H.
    + rewrite collect_paren by assumption. unfold parsedOf. now rewrite H2.
    + rewrite collect_bracket by assumption.
      apply flat_map_parsedOf_nil in H2. now rewrite H2.
    + now rewrite collect_other.
  - intros s m. rewrite parsePoints_unfold.
    destruct (collectPoints (trim s)) as [|p pts] eqn:E; [|discriminate].
    intros H. injection H as <-. split; [reflexivity|].
    destruct (startsWith (trim s) "[") eqn:H1.
    + right; left. split; [reflexivity|].
      rewrite collect_bracket in E by assumption.
      now apply flat_map_parsedOf_nil.
    + destruct (startsWith (trim s) "(") eqn:H2.
      * left. split; [reflexivity|].
        rewrite collect_paren in E by assumption. unfold parsedOf in E.
        now destruct (parsePoint (trim s)).
      * right; right. auto.
  - repeat split; vm_compute; reflexivity.
Qed.

Lemma parsePoints_error_witness :
  parsePoints "[invalid]" =
  Throw ("Invalid points format: " ++ trim "[invalid]" ++ ". Use " ++ dq
           ++ "(x,y)" ++ dq ++ " or " ++ dq ++ "[(x,y) (x,y)]" ++ dq ++ ".").
Proof.
  apply (proj1 parsePoints_error "[invalid]").
  right; right; left. split; [reflexivity|].
  intros c Hc. vm_compute in Hc. destruct Hc.
Defined.

(** C5. In a bracketed argument the result is made of the candidates
    of the search that [parsePoint] accepts: as soon as one of them is
    a point the call returns, candidates that are not points are left
    out, and the text between the candidates plays no part. *)
Theorem parsePoints_bracket_skips :
  (forall s cands p pts,
      startsWith (trim s) "[" = true ->
      PointRegex.Scan (bracketInterior (trim s)) cands ->
      flat_map parsedOf cands = p :: pts ->
      parsePoints s = Return (p :: pts)) /\
  (forall s1 s2,
      startsWith (trim s1) "[" = true -> startsWith (trim s2) "[" = true ->
      PointRegex.matchAll (bracketInterior (trim s1)) =
      PointRegex.matchAll (bracketInterior (trim s2)) ->
      forall pts, parsePoints s1 = Return pts -> parsePoints s2 = Return pts) /\
  parsePoints "[ (50,96) invalid ]" = Return [(50, 96)%float] /\
  parsePoints "[ (50,96) (50,abc) (7) ]" = Return [(50, 96)%float] /\
  parsePoints "[junk (x,y) (1,2) more junk (3,4)]" =
    Return [(1, 2)%float; (3, 4)%float].
Proof.
  split; [|split].
  - intros s cands p pts H1 Hs Hp. rewrite parsePoints_unfold.
    rewrite collect_bracket by assumption.
    apply PointRegexFacts.matchAll_Scan in Hs. now rewrite Hs, Hp.
  - intros s1 s2 H1 H2 E pts. rewrite !parsePoints_unfold.
    rewrite !collect_bracket by assumption. rewrite E.
    destruct (flat_map parsedOf _); [discriminate | auto].
  - repeat split; vm_compute; reflexivity.
Qed.

Lemma parsePoints_bracket_skips_witness :
  parsePoints "[ (50,96) (50,abc) ]" = Return [(50, 96)%float].
Proof.
  apply (proj1 parsePoints_bracket_skips "[ (50,96) (50,abc) ]"
           ["(50,96)"; "(50,abc)"]).
  - reflexivity.
  - apply PointRegexFacts.matchAll_Scan. vm_compute. reflexivity.
  - vm_compute. reflexivity.
Defined.

(** C8. [parsePoints] throws or returns a list that is not empty.  For
    a bracketed argument the list holds, in the order of the search
    through the text, the point of each candidate that [parsePoint]
    accepts, once per candidate, so that repeated points stay
    repeated. *)
Theorem parsePoints_nonempty_ordered :
  (forall s,
      (exists m, parsePoints s = Throw m) \/
      (exists p pts, parsePoints s = Return (p :: pts))) /\
  (forall s cands pts,
      startsWith (trim s) "[" = true ->
      PointRegex.Scan (bracketInterior (trim s)) cands ->
      parsePoints s = Return pts ->
      pts = flat_map parsedOf cands) /\
  parsePoints "[(50,96) (510,296)]" = Return [(50, 96)%float; (510, 296)%float] /\
  parsePoints "[(510,296) (50,96)]" = Return [(510, 296)%float; (50, 96)%float] /\
  parsePoints "[(1,2) (3,4) (1,2)]" =
    Return [(1, 2)%float; (3, 4)%float; (1, 2)%float] /\
  parsePoints "(50,96)" = Return [(50, 96)%float].
Proof.
  split; [|split].
  - intros s. rewrite parsePoints_unfold.
    destruct (collectPoints (trim s)) as [|p pts]; eauto.
  - intros s cands pts H1 Hs. rewrite parsePoints_unfold.
    rewrite collect_bracket by assumption.
    apply PointRegexFacts.matchAll_Scan in Hs. rewrite Hs.
    destruct (flat_map parsedOf cands); [discriminate|].
    intros H. now injection H.
  - repeat split; vm_compute; reflexivity.
Qed.

Lemma parsePoints_nonempty_ordered_witness :
  [(1, 2)%float; (1, 2)%float] = flat_map parsedOf ["(1,2)"; "(1,2)"].
Proof.
  apply (proj1 (proj2 parsePoints_nonempty_ordered) "[(1,2) (1,2)]").
  - reflexivity.
  - apply PointRegexFacts.matchAll_Scan. vm_compute. reflexivity.
  - vm_compute. reflexivity.
Defined.

(** C10. For a trimmed argument that starts with [[] the last
    character is dropped whatever it is: the result is that of the
    search through the text between the first and the last character.
    An argument without the closing bracket is therefore accepted, and
    loses its last character to the cut. *)
Theorem parsePoints_no_closing_bracket :
  (forall s inner b,
      trim s = String "[" (inner ++ String b EmptyString) ->
      parsePoints s =
      match flat_map parsedOf (PointRegex.matchAll (trim inner)) with
      | [] => Throw (invalidPoints (trim s))
      | pts => Return pts
      end) /\
  parsePoints "[(1,2) (3,4)" = Return [(1, 2)%float] /\
  parsePoints "[(1,2) (3,4)]" = Return [(1, 2)%float; (3, 4)%float] /\
  parsePoints "[(1,2) (3,4)x" = Return [(1, 2)%float; (3, 4)%float].
Proof.
  split.
  - intros s inner b Ht. rewrite parsePoints_unfold.
    rewrite collect_bracket by (apply startsWith_char; eauto).
    unfold bracketInterior. rewrite Ht, slice_1_m1. reflexivity.
  - repeat split; vm_compute; reflexivity.
Qed.

Lemma parsePoints_no_closing_bracket_witness :
  parsePoints "[(1,2) (3,4)" =
  match flat_map parsedOf (PointRegex.matchAll (trim "(1,2) (3,4")) with
  | [] => Throw (invalidPoints (trim "[(1,2) (3,4)"))
  | pts => Return pts
  end.
Proof.
  apply (proj1 parsePoints_no_closing_bracket "[(1,2) (3,4)" "(1,2) (3,4" ")"%char).
  reflexivity.
Defined.

(** ** parseCenter *)

(** C6, as the specification states it, fails: the test for the opening
    parenthesis and the call of [parsePoint] are made on the argument
    as received.  With a leading space the trimmed argument starts with
    [(] and is a point, and [parseCenter] throws; with a space in the
    place of the closing parenthesis the trimmed argument is not a
    point, and [parseCenter] returns one. *)
Lemma parseCenter_leading_space :
  startsWith (trim " (1,2)") "(" = true /\
  parsePoint (trim " (1,2)") = Some (1, 2)%float /\
  parseCenter " (1,2)" = Throw (invalidCenter " (1,2)") /\
  startsWith (trim "(1,2 ") "(" = true /\
  parsePoint (trim "(1,2 ") = None /\
  parseCenter "(1,2 " = Return (1, 2)%float.
Proof. repeat split; vm_compute; reflexivity. Qed.

(** C6, amended. [parseCenter] returns a point exactly when the
    argument itself, untrimmed, starts with [(] and [parsePoint]
    accepts it, and the point is the one [parsePoint] gives; in every
    other case it throws, and the message is built around the argument
    as received. *)
Theorem parseCenter_spec :
  (forall s p,
      parseCenter s = Return p <->
      startsWith s "(" = true /\ parsePoint s = Some p) /\
  (forall s m,
      parseCenter s = Throw m <->
      (startsWith s "(" = false \/ parsePoint s = None) /\
      m = "Invalid center format: " ++ s ++ ". Use " ++ dq ++ "(cx,cy)" ++ dq
            ++ " or pass separate cx cy.") /\
  parseCenter "(256,256)" = Return (256, 256)%float /\
  parseCenter "( 256 , 256 )" = Return (256, 256)%float /\
  parseCenter "invalid" =
    Throw ("Invalid center format: invalid. Use " ++ dq ++ "(cx,cy)" ++ dq
             ++ " or pass separate cx cy.") /\
  parseCenter "(256,abc)" =
    Throw ("Invalid center format: (256,abc). Use " ++ dq ++ "(cx,cy)" ++ dq
             ++ " or pass separate cx cy.") /\
  parseCenter "(1,2) " = Return (1, 2)%float.
Proof.
  split; [|split].
  - intros s p. unfold parseCenter.
    destruct (startsWith s "(").
    + destruct (parsePoint s) as [[x y]|]; simpl.
      * split.
        -- intros H. injection H as <-. auto.
        -- intros [_ H]. injection H as <-. reflexivity.
      * split; [discriminate | intros [_ H]; discriminate H].
    + split; [discriminate | intros [H _]; discriminate H].
  - intros s m. unfold parseCenter.
    change ("Invalid center format: " ++ s ++ ". Use " ++ dq ++ "(cx,cy)" ++ dq
              ++ " or pass separate cx cy.") with (invalidCenter s).
    destruct (startsWith s "(").
    + destruct (parsePoint s) as [[x y]|]; simpl.
      * split; [discriminate | intros [[H|H] _]; discriminate H].
      * split.
        -- intros H. injection H as <-. auto.
        -- intros [_ ->]. reflexivity.
    + split.
      * intros H. injection H as <-. auto.
      * intros [_ ->]. reflexivity.
  - repeat split; vm_compute; reflexivity.
Qed.

(** ** Coordinates *)

(** C7, as the specification states it, fails: the only test made on
    the two numbers is [isNaN], and [parseFloat] reads [Infinity] and
    rounds a decimal that is too large to [Infinity]. *)
Lemma parsePoint_admits_infinity :
  parsePoint "(Infinity,1e999)" = Some (infinity, infinity) /\
  parsePoints "[(1,-Infinity)]" = Return [(1%float, neg_infinity)] /\
  parseCenter "(-1e400,2)" = Return (neg_infinity, 2%float) /\
  isFinite infinity = false /\ isFinite neg_infinity = false.
Proof. repeat split; vm_compute; reflexivity. Qed.

Lemma parsePoint_notNaN (s : string) (p : Point) :
  parsePoint s = Some p -> notNaN p.
Proof.
  unfold parsePoint.
  destruct (map trim (split "," (trim (slice s 1 (-1))))) as [|p0 [|p1 [|p2 l]]];
    try discriminate.
  destruct (isNaN (parseFloat p0)) eqn:E0; [discriminate|].
  destruct (isNaN (parseFloat p1)) eqn:E1; [discriminate|].
  simpl. intros H. injection H as <-. now split.
Qed.

Lemma flat_map_parsedOf_notNaN (cands : list string) :
  Forall notNaN (flat_map parsedOf cands).
Proof.
  induction cands as [|c cands IH]; simpl; [constructor|].
  apply Forall_app. split; [|assumption].
  unfold parsedOf. destruct (parsePoint c) as [p|] eqn:E; constructor.
  - now apply parsePoint_notNaN with c.
  - constructor.
Qed.

(** C7, amended. No coordinate of a point returned by [parsePoint],
    [parsePoints] or [parseCenter] is [NaN]. *)
Theorem parsed_coordinates_not_NaN (s : string) :
  (forall p, parsePoint s = Some p -> notNaN p) /\
  (forall pts, parsePoints s = Return pts -> Forall notNaN pts) /\
  (forall p, parseCenter s = Return p -> notNaN p).
Proof.
  split; [|split].
  - intros p. apply parsePoint_notNaN.
  - intros pts. rewrite parsePoints_unfold. unfold collectPoints.
    destruct (startsWith (trim s) "[").
    + rewrite fold_pushParsed. simpl.
      pose proof (flat_map_parsedOf_notNaN
                    (PointRegex.matchAll (trim (slice (trim s) 1 (-1))))) as HF.
      destruct (flat_map parsedOf _); [discriminate|].
      intros H. now injection H as <-.
    + destruct (startsWith (trim s) "("); [|discriminate].
      unfold pushParsed. destruct (parsePoint (trim s)) as [p|] eqn:E; [|discriminate].
      simpl. intros H. injection H as <-.
      constructor; [now apply parsePoint_notNaN with (trim s) | constructor].
  - intros p. unfold parseCenter.
    destruct (startsWith s "("); [|discriminate].
    destruct (parsePoint s) as [[x y]|] eqn:E; [|discriminate].
    intros H. injection H as <-. now apply parsePoint_notNaN with s.
Qed.

Lemma parsed_coordinates_not_NaN_witness : notNaN (50, 96)%float.
Proof.
  apply (proj1 (parsed_coordinates_not_NaN "(50,96)")).
  vm_compute. reflexivity.
Defined.

(** ** Double arithmetic *)

Module Binary64Facts.
Import Binary64.

Lemma isFinite_finiteSF (x : number) :
  isFinite x = true -> finiteSF (Prim2SF x) = true.
Proof.
  unfold isFinite, Prim2SF. intros H.
  apply andb_prop in H as [Hn Hi].
  apply negb_true_iff in Hn. apply negb_true_iff in Hi. rewrite Hn, Hi.
  destruct (is_zero x); [reflexivity|].
  destruct (Z.frexp x) as [r e].
  destruct (shr_fexp prec emax _ _ _) as [mrs e'].
  destruct (shr_m mrs); reflexivity.
Qed.

Lemma not_neg_zero (x : number) :
  x <> neg_zero -> Prim2SF x <> S754_zero true.
Proof.
  intros H E. apply H. rewrite <- (SF2Prim_Prim2SF x), E. reflexivity.
Qed.

Lemma SF64mul_comm (x y : spec_float) : SF64mul x y = SF64mul y x.
Proof.
  unfold SF64mul, SFmul.
  destruct x as [sx|sx| |sx mx ex], y as [sy|sy| |sy my ey]; try reflexivity;
    try (now rewrite xorb_comm).
  now rewrite xorb_comm, Pos.mul_comm, Z.add_comm.
Qed.

Lemma digits2_pos_shift (m : positive) :
  Zpos (digits2_pos (4503599627370496 * m)) = Zpos (digits2_pos m) + 52.
Proof. cbn [Pos.mul digits2_pos]. lia. Qed.

(** Multiplying by [1] is exact. *)
Lemma SF64mul_one_l (x : spec_float) :
  valid_binary x = true -> SF64mul (Prim2SF 1) x = x.
Proof.
  intros Hv.
  change (Prim2SF 1) with (S754_finite false 4503599627370496 (-52)).
  destruct x as [sx|sx| |sx mx ex]; try reflexivity.
  unfold SF64mul, SFmul. cbn [xorb].
  unfold valid_binary, bounded, canonical_mantissa in Hv.
  apply andb_prop in Hv as [Hc Hb]. apply Z.eqb_eq in Hc.
  assert (Hf : forall a, a = Z.pos (digits2_pos mx) + ex -> fexp prec emax a = ex)
    by (intros a ->; exact Hc).
  unfold binary_round_aux, shr_fexp. cbn [Zdigits2].
  rewrite digits2_pos_shift.
  match goal with |- context [fexp prec emax ?a] => rewrite (Hf a) by lia end.
  match goal with |- context [shr _ _ ?n] => replace n with 52 by lia end.
  cbn [shr shr_record_of_loc SpecFloat.iter_pos Pos.mul shr_1 orb shr_m
       loc_of_shr_record round_nearest_even Zdigits2].
  match goal with |- context [fexp prec emax ?a] => rewrite (Hf a) by lia end.
  match goal with |- context [shr _ ?e ?n] =>
    replace n with 0 by lia; replace e with ex by lia
  end.
  cbn [shr shr_m]. now rewrite Hb.
Qed.

Lemma SF64mul_one_r (x : spec_float) :
  valid_binary x = true -> SF64mul x (Prim2SF 1) = x.
Proof. intros H. rewrite SF64mul_comm. now apply SF64mul_one_l. Qed.

(** A finite number minus itself is [+0]. *)
Lemma SF64sub_diag (x : spec_float) :
  finiteSF x = true -> SF64sub x x = S754_zero false.
Proof.
  destruct x as [[]|s| |s m e]; try discriminate; try reflexivity.
  intros _. unfold SF64sub, SFsub. now rewrite Z.sub_diag.
Qed.

(** [1 * (x - cx) - 0 * dy + cx], the first coordinate at angle zero,
    is [(x - cx) + cx] when [dy] is finite: the product with zero is a
    zero, and its sign does not reach the sum. *)
Lemma zero_angle_x (X CX DY : spec_float) (s0 : bool) :
  valid_binary (SF64sub X CX) = true ->
  finiteSF DY = true ->
  SF64add (SF64sub (SF64mul (Prim2SF 1) (SF64sub X CX))
                   (SF64mul (S754_zero s0) DY)) CX
  = SF64add (SF64sub X CX) CX.
Proof.
  intros Hv Hd. rewrite SF64mul_one_l by assumption. clear Hv.
  assert (exists z, SF64mul (S754_zero s0) DY = S754_zero z) as [z ->].
  { destruct DY; try discriminate; eexists; reflexivity. }
  destruct CX as [sc|sc| |sc mc ec].
  - destruct X as [sx|sx| |sx mx ex]; try reflexivity.
    now destruct sx, sc, z.
  - destruct X as [sx|sx| |sx mx ex]; try reflexivity; now destruct sx, sc.
  - now destruct X.
  - destruct (SF64sub X (S754_finite sc mc ec)) as [sd|sd| |sd md ed];
      try reflexivity.
    now destruct sd, z.
Qed.

(** [0 * dx + 1 * (y - cy) + cy], the second coordinate at angle zero,
    is [(y - cy) + cy] when [dx] is finite. *)
Lemma zero_angle_y (Y CY DX : spec_float) (s0 : bool) :
  valid_binary (SF64sub Y CY) = true ->
  finiteSF DX = true ->
  SF64add (SF64add (SF64mul (S754_zero s0) DX)
                   (SF64mul (Prim2SF 1) (SF64sub Y CY))) CY
  = SF64add (SF64sub Y CY) CY.
Proof.
  intros Hv Hd. rewrite SF64mul_one_l by assumption. clear Hv.
  assert (exists z, SF64mul (S754_zero s0) DX = S754_zero z) as [z ->].
  { destruct DX; try discriminate; eexists; reflexivity. }
  destruct CY as [sc|sc| |sc mc ec].
  - destruct Y as [sy|sy| |sy my ey]; try reflexivity.
    now destruct sy, sc, z.
  - destruct Y as [sy|sy| |sy my ey]; try reflexivity; now destruct sy, sc.
  - now destruct Y.
  - destruct (SF64sub Y (S754_finite sc mc ec)) as [sd|sd| |sd md ed];
      try reflexivity.
    now destruct sd, z.
Qed.

(** [c * (cx - cx) - s * (cy - cy) + cx] is [cx] for finite numbers,
    unless [cx] is [-0]. *)
Lemma center_x (C S CX CY : spec_float) :
  finiteSF C = true -> finiteSF S = true ->
  finiteSF CX = true -> finiteSF CY = true ->
  CX <> S754_zero true ->
  SF64add (SF64sub (SF64mul C (SF64sub CX CX)) (SF64mul S (SF64sub CY CY))) CX
  = CX.
Proof.
  intros HC HS HX HY Hz. rewrite !SF64sub_diag by assumption.
  assert (exists z, SF64mul C (S754_zero false) = S754_zero z) as [z ->].
  { destruct C; try discriminate; eexists; reflexivity. }
  assert (exists z', SF64mul S (S754_zero false) = S754_zero z') as [z' ->].
  { destruct S; try discriminate; eexists; reflexivity. }
  destruct CX as [[]|sc| |sc mc ec]; try discriminate.
  - now destruct Hz.
  - now destruct z, z'.
  - now destruct z, z'.
Qed.

(** [s * (cx - cx) + c * (cy - cy) + cy] is [cy] for finite numbers,
    unless [cy] is [-0]. *)
Lemma center_y (C S CX CY : spec_float) :
  finiteSF C = true -> finiteSF S = true ->
  finiteSF CX = true -> finiteSF CY = true ->
  CY <> S754_zero true ->
  SF64add (SF64add (SF64mul S (SF64sub CX CX)) (SF64mul C (SF64sub CY CY))) CY
  = CY.
Proof.
  intros HC HS HX HY Hz. rewrite !SF64sub_diag by assumption.
  assert (exists z, SF64mul C (S754_zero false) = S754_zero z) as [z ->].
  { destruct C; try discriminate; eexists; reflexivity. }
  assert (exists z', SF64mul S (S754_zero false) = S754_zero z') as [z' ->].
  { destruct S; try discriminate; eexists; reflexivity. }
  destruct CY as [[]|sc| |sc mc ec]; try discriminate.
  - now destruct Hz.
  - now destruct z, z'.
  - now destruct z, z'.
Qed.

Lemma finiteSF_isFinite (x : number) :
  finiteSF (Prim2SF x) = true -> isFinite x = true.
Proof.
  intros H. unfold isFinite.
  assert (Hn : is_nan x = false).
  { revert H. unfold Prim2SF. now destruct (is_nan x). }
  rewrite Hn. simpl. unfold is_infinity. rewrite eqb_spec, abs_spec.
  change (Prim2SF infinity) with (S754_infinity false).
  now destruct (Prim2SF x).
Qed.

(** [c * 1 - s * 0 + 0], the first coordinate of the image of
    [(1, 0)] about the origin, has the value of [c]. *)
Lemma unit_x (C S : spec_float) :
  valid_binary C = true -> finiteSF C = true -> finiteSF S = true ->
  let N := SF64add (SF64sub (SF64mul C (Prim2SF 1))
                            (SF64mul S (S754_zero false)))
                   (S754_zero false) in
  finiteSF N = true /\ SF2R N = SF2R C.
Proof.
  intros Hv HC HS. rewrite SF64mul_one_r by assumption.
  assert (exists z, SF64mul S (S754_zero false) = S754_zero z) as [z ->].
  { destruct S; try discriminate; eexists; reflexivity. }
  destruct C as [a| | |a m e]; try discriminate.
  - destruct a, z; split; reflexivity.
  - split; reflexivity.
Qed.

(** [s * 1 + c * 0 + 0], its second coordinate, has the value of [s]. *)
Lemma unit_y (C S : spec_float) :
  valid_binary S = true -> finiteSF C = true -> finiteSF S = true ->
  let N := SF64add (SF64add (SF64mul S (Prim2SF 1))
                            (SF64mul C (S754_zero false)))
                   (S754_zero false) in
  finiteSF N = true /\ SF2R N = SF2R S.
Proof.
  intros Hv HC HS. rewrite SF64mul_one_r by assumption.
  assert (exists z, SF64mul C (S754_zero false) = S754_zero z) as [z ->].
  { destruct C; try discriminate; eexists; reflexivity. }
  destruct S as [a| | |a m e]; try discriminate.
  - destruct a, z; split; reflexivity.
  - split; reflexivity.
Qed.

End Binary64Facts.

(** ** rotate *)

Section RotateFacts.

Variables Math_cos Math_sin : number -> number.

(** ECMAScript fixes two values of the engine's functions:
    [Math.cos(+0)] is [1] and [Math.sin(+0)] is [+0]. *)
Hypothesis cos_zero : Math_cos 0%float = 1%float.
Hypothesis sin_zero : Math_sin 0%float = 0%float.

Lemma rotate_zero_angle (x y cx cy : number) :
  isFinite (x - cx)%float = true -> isFinite (y - cy)%float = true ->
  rotate Math_cos Math_sin x y 0%float cx cy = ((x - cx) + cx, (y - cy) + cy)%float.
Proof.
  intros Hx Hy. unfold rotate.
  change (0 * Math_PI / 180)%float with 0%float.
  rewrite cos_zero, sin_zero.
  apply Binary64Facts.isFinite_finiteSF in Hx, Hy.
  rewrite sub_spec in Hx, Hy.
  f_equal; apply Prim2SF_inj;
    rewrite ?add_spec, ?sub_spec, ?mul_spec, ?add_spec, ?sub_spec, ?mul_spec.
  - apply (Binary64Facts.zero_angle_x _ _ _ false); [|assumption].
    rewrite <- sub_spec. apply Prim2SF_valid.
  - apply (Binary64Facts.zero_angle_y _ _ _ false); [|assumption].
    rewrite <- sub_spec. apply Prim2SF_valid.
Qed.

Lemma sub_add_zero (x : number) :
  isFinite x = true -> x <> neg_zero -> (x - 0 + 0)%float = x.
Proof.
  intros Hf Hz. apply Binary64Facts.isFinite_finiteSF in Hf.
  apply Binary64Facts.not_neg_zero in Hz.
  apply Prim2SF_inj. rewrite add_spec, sub_spec.
  change (Prim2SF 0) with (S754_zero false).
  destruct (Prim2SF x) as [[]|s| |s m e]; try discriminate; try reflexivity.
  now destruct Hz.
Qed.

Lemma rotate_center (angle cx cy : number) :
  isFinite cx = true -> isFinite cy = true ->
  cx <> neg_zero -> cy <> neg_zero ->
  isFinite (Math_cos (angle * Math_PI / 180)%float) = true ->
  isFinite (Math_sin (angle * Math_PI / 180)%float) = true ->
  rotate Math_cos Math_sin cx cy angle cx cy = (cx, cy).
Proof.
  intros Hx Hy Hzx Hzy Hc Hs. unfold rotate.
  apply Binary64Facts.isFinite_finiteSF in Hx, Hy, Hc, Hs.
  apply Binary64Facts.not_neg_zero in Hzx, Hzy.
  f_equal; apply Prim2SF_inj;
    rewrite ?add_spec, ?sub_spec, ?mul_spec, ?add_spec, ?sub_spec, ?mul_spec.
  - now apply Binary64Facts.center_x.
  - now apply Binary64Facts.center_y.
Qed.

(** C2, amended. With [Math.cos(+0) = 1] and [Math.sin(+0) = +0]:
    at angle zero, when the differences [x - cx] and [y - cy] are
    finite, [rotate] returns [((x - cx) + cx, (y - cy) + cy)] as double
    arithmetic computes them, which is [(x, y)] itself when the two
    roundings cancel, as they do about the origin for finite [x] and
    [y] other than [-0]; and a finite center other than [-0] is a fixed
    point, bit for bit, at every angle where the engine's cosine and
    sine are finite.  The point [(2, 3)] about [(1, 1)] is an instance
    of the first. *)
Theorem rotate_degenerate :
  (forall x y cx cy,
      isFinite (x - cx)%float = true -> isFinite (y - cy)%float = true ->
      rotate Math_cos Math_sin x y 0%float cx cy
      = ((x - cx) + cx, (y - cy) + cy)%float) /\
  (forall x y,
      isFinite x = true -> isFinite y = true ->
      x <> neg_zero -> y <> neg_zero ->
      rotate Math_cos Math_sin x y 0%float 0%float 0%float = (x, y)) /\
  (forall angle cx cy,
      isFinite cx = true -> isFinite cy = true ->
      cx <> neg_zero -> cy <> neg_zero ->
      isFinite (Math_cos (angle * Math_PI / 180)%float) = true ->
      isFinite (Math_sin (angle * Math_PI / 180)%float) = true ->
      rotate Math_cos Math_sin cx cy angle cx cy = (cx, cy)) /\
  rotate Math_cos Math_sin 2%float 3%float 0%float 1%float 1%float
  = (2, 3)%float.
Proof.
  split; [|split; [|split]]; [| | |now rewrite rotate_zero_angle].
  - apply rotate_zero_angle.
  - intros x y Hx Hy Hzx Hzy.
    assert (Hx0 : (x - 0)%float = x).
    { apply Prim2SF_inj. rewrite sub_spec. change (Prim2SF 0) with (S754_zero false).
      now destruct (Prim2SF x) as [[]| | |]. }
    assert (Hy0 : (y - 0)%float = y).
    { apply Prim2SF_inj. rewrite sub_spec. change (Prim2SF 0) with (S754_zero false).
      now destruct (Prim2SF y) as [[]| | |]. }
    rewrite rotate_zero_angle by (rewrite ?Hx0, ?Hy0; assumption).
    now rewrite !sub_add_zero.
  - apply rotate_center.
Qed.

End RotateFacts.

(** C2, as the specification states it, fails.  With the cosine and
    sine that ECMAScript fixes at [+0], the zero angle leaves
    [(x - cx) + cx], and the subtraction rounds: about the center
    [(1e16, 0)] the point [(1, 0)] comes back as [(0, 0)], and about
    [(1, 0)] the point [(0.1, 0)] comes back with a first coordinate
    one unit in the last place too small.  The center [(-0, -0)] comes
    back as [(+0, +0)].  And an angle as large as [2^1023] has infinite
    radians, where ECMAScript fixes the cosine to [NaN]: the center
    comes back as [(NaN, NaN)]. *)
Lemma rotate_degenerate_inexact :
  (forall Math_cos Math_sin : number -> number,
      Math_cos 0%float = 1%float -> Math_sin 0%float = 0%float ->
      rotate Math_cos Math_sin 1%float 0%float 0%float 1e16%float 0%float
      = (0, 0)%float /\
      rotate Math_cos Math_sin (parseFloat "0.1") 0%float 0%float 1%float 0%float
      = (parseFloat "0.09999999999999998", 0%float) /\
      rotate Math_cos Math_sin neg_zero neg_zero 0%float neg_zero neg_zero
      = (0, 0)%float) /\
  (forall Math_cos Math_sin : number -> number,
      Math_cos infinity = nan ->
      rotate Math_cos Math_sin 1%float 1%float 0x1p1023%float 1%float 1%float
      = (nan, nan)) /\
  isFinite 1%float = true /\ isFinite 1e16%float = true /\
  isFinite (parseFloat "0.1") = true /\ isFinite 0x1p1023%float = true /\
  (1 =? 0)%float = false /\
  (parseFloat "0.1" =? parseFloat "0.09999999999999998")%float = false /\
  neg_zero <> 0%float /\
  isNaN nan = true.
Proof.
  split; [|split].
  - intros c s Hc Hs. unfold rotate.
    change (0 * Math_PI / 180)%float with 0%float.
    rewrite Hc, Hs. repeat split; vm_compute; reflexivity.
  - intros c s Hc. unfold rotate.
    change (0x1p1023 * Math_PI / 180)%float with infinity.
    rewrite Hc. change (1 - 1)%float with 0%float.
    change (nan * 0)%float with nan.
    f_equal; apply Prim2SF_inj; rewrite !add_spec, ?sub_spec.
    + change (Prim2SF nan) with S754_nan. reflexivity.
    + change (Prim2SF nan) with S754_nan.
      now destruct (Prim2SF (s infinity * 0)).
  - repeat split; try (vm_compute; reflexivity).
    intros H. apply (f_equal Prim2SF) in H. vm_compute in H. discriminate H.
Qed.

Lemma rotate_degenerate_witness :
  rotate (fun _ => 1%float) (fun _ => 0%float)
         2%float 3%float 0%float 1%float 1%float
  = ((2 - 1) + 1, (3 - 1) + 1)%float.
Proof.
  apply (proj1 (rotate_degenerate (fun _ => 1%float) (fun _ => 0%float)
                  eq_refl eq_refl) 2%float 3%float 1%float 1%float);
    reflexivity.
Defined.


(** *** Quarter turns *)

Section RealBounds.

Local Open Scope R_scope.

(** Fifteen decimals of [PI], from the series of
    [PI/4 = 2 atan(1/3) + atan(1/7)]. *)
Lemma PI_bounds :
  3141592653589793 / 1000000000000000 <= PI
  <= 3141592653589794 / 1000000000000000.
Proof.
  generalize (PI_2_3_7_ineq 7).
  unfold PI_2_3_7_tg, tg_alt, Ratan_seq.
  cbn [sum_f_R0 Nat.mul Nat.add].
  rewrite !INR_IZR_INZ. cbn [Z.of_nat Pos.of_succ_nat Pos.succ].
  intros [H1 H2]. split; lra.
Qed.

Lemma sin_abs_le (d : R) : Rabs d <= 1 -> Rabs (sin d) <= Rabs d.
Proof.
  intros H.
  assert (Hpos : forall x, 0 <= x <= 1 -> 0 <= sin x <= x).
  { intros x [H0 H1]. destruct (Req_dec x 0) as [->|Hx].
    - rewrite sin_0. lra.
    - split.
      + apply sin_ge_0; [lra|]. pose proof PI_bounds. lra.
      + left. apply sin_lt_x. lra. }
  destruct (Rle_dec 0 d) as [Hd|Hd].
  - rewrite (Rabs_pos_eq d) in * by assumption.
    destruct (Hpos d) as [? ?]; [lra|]. rewrite Rabs_pos_eq; lra.
  - rewrite (Rabs_left d) in * by lra.
    destruct (Hpos (- d)) as [? ?]; [lra|].
    rewrite sin_neg in *. rewrite Rabs_left1; lra.
Qed.

Lemma cos_near_one (d : R) : Rabs d <= 1 -> Rabs (cos d - 1) <= Rabs d.
Proof.
  intros H.
  replace d with (2 * (d / 2)) at 1 by field.
  rewrite cos_2a_sin.
  assert (Hs : Rabs (sin (d / 2)) <= Rabs d / 2).
  { replace (Rabs d / 2) with (Rabs (d / 2)).
    - apply sin_abs_le. unfold Rdiv.
      rewrite Rabs_mult, (Rabs_pos_eq (/ 2)) by lra. lra.
    - unfold Rdiv. rewrite Rabs_mult, (Rabs_pos_eq (/ 2)) by lra. reflexivity. }
  pose proof (SIN_bound (d / 2)) as Hb.
  set (s := sin (d / 2)) in *.
  assert (Hs1 : Rabs s <= 1) by (apply Rabs_le; lra).
  replace (1 - 2 * s * s - 1) with (- (2 * (s * s))) by ring.
  rewrite Rabs_Ropp, Rabs_mult, (Rabs_pos_eq 2), Rabs_mult by lra.
  pose proof (Rabs_pos s) as Hp.
  assert (Rabs s * Rabs s <= Rabs s * 1)
    by (apply Rmult_le_compat_l; assumption).
  lra.
Qed.

(** The doubles that stand for a quarter and a half turn. *)
Lemma toR_quarter :
  Binary64.toR (radians 90%float) = 7074237752028440 / 4503599627370496.
Proof. reflexivity. Qed.

Lemma toR_half :
  Binary64.toR (radians 180%float) = 7074237752028440 / 2251799813685248.
Proof. reflexivity. Qed.

Lemma toR_minus_quarter :
  Binary64.toR (radians (-90)%float) = - Binary64.toR (radians 90%float).
Proof.
  rewrite toR_quarter.
  change (Binary64.toR (radians (-90)%float))
    with (-7074237752028440 / 4503599627370496).
  lra.
Qed.

(** Cosine and sine at these doubles. *)
Lemma trig_quarter :
  Rabs (cos (Binary64.toR (radians 90%float)) - 0) <= / 10 ^ 13 /\
  Rabs (sin (Binary64.toR (radians 90%float)) - 1) <= / 10 ^ 13.
Proof.
  rewrite toR_quarter.
  set (t := 7074237752028440 / 4503599627370496).
  pose proof PI_bounds as [Hlo Hhi].
  assert (Hd : Rabs (PI / 2 - t) <= / 10 ^ 13).
  { unfold t. apply Rabs_le. split; lra. }
  assert (Rabs (PI / 2 - t) <= 1) by lra.
  split.
  - replace t with (PI / 2 - (PI / 2 - t)) by ring.
    rewrite cos_shift, Rminus_0_r.
    apply Rle_trans with (2 := Hd). now apply sin_abs_le.
  - replace t with (PI / 2 - (PI / 2 - t)) by ring.
    rewrite sin_shift.
    apply Rle_trans with (2 := Hd). now apply cos_near_one.
Qed.

Lemma trig_half :
  Rabs (cos (Binary64.toR (radians 180%float)) - (-1)) <= / 10 ^ 13 /\
  Rabs (sin (Binary64.toR (radians 180%float)) - 0) <= / 10 ^ 13.
Proof.
  rewrite toR_half.
  set (t := 7074237752028440 / 2251799813685248).
  pose proof PI_bounds as [Hlo Hhi].
  assert (Hd : Rabs (PI - t) <= / 10 ^ 13).
  { unfold t. apply Rabs_le. split; lra. }
  assert (Rabs (PI - t) <= 1) by lra.
  split.
  - replace t with (- (PI - t) + PI) by ring.
    rewrite neg_cos, cos_neg.
    replace (- cos (PI - t) - -1) with (- (cos (PI - t) - 1)) by ring.
    rewrite Rabs_Ropp.
    apply Rle_trans with (2 := Hd). now apply cos_near_one.
  - replace t with (PI - (PI - t)) by ring.
    rewrite sin_PI_x, Rminus_0_r.
    apply Rle_trans with (2 := Hd). now apply sin_abs_le.
Qed.

Lemma trig_minus_quarter :
  Rabs (cos (Binary64.toR (radians (-90)%float)) - 0) <= / 10 ^ 13 /\
  Rabs (sin (Binary64.toR (radians (-90)%float)) - (-1)) <= / 10 ^ 13.
Proof.
  rewrite toR_minus_quarter, cos_neg, sin_neg.
  destruct trig_quarter as [Hc Hs]. split; [assumption|].
  replace (- sin (Binary64.toR (radians 90%float)) - -1)
    with (- (sin (Binary64.toR (radians 90%float)) - 1)) by ring.
  now rewrite Rabs_Ropp.
Qed.

End RealBounds.

(** The image of [(1, 0)] about the origin is the engine's cosine and
    sine of the angle, when these are finite: the products with [1] are
    exact and the terms that vanish leave the values as they are. *)
Lemma rotate_unit (Math_cos Math_sin : number -> number) (angle : number) :
  isFinite (Math_cos (radians angle)) = true ->
  isFinite (Math_sin (radians angle)) = true ->
  let p := rotate Math_cos Math_sin 1%float 0%float angle 0%float 0%float in
  isFinite (fst p) = true /\ isFinite (snd p) = true /\
  Binary64.toR (fst p) = Binary64.toR (Math_cos (radians angle)) /\
  Binary64.toR (snd p) = Binary64.toR (Math_sin (radians angle)).
Proof.
  intros Hc Hs. unfold rotate. fold (radians angle). cbn [fst snd].
  change (1 - 0)%float with 1%float. change (0 - 0)%float with 0%float.
  apply Binary64Facts.isFinite_finiteSF in Hc, Hs.
  pose proof (Prim2SF_valid (Math_cos (radians angle))) as Vc.
  pose proof (Prim2SF_valid (Math_sin (radians angle))) as Vs.
  destruct (Binary64Facts.unit_x _ _ Vc Hc Hs) as [Fx Ex].
  destruct (Binary64Facts.unit_y _ _ Vs Hc Hs) as [Fy Ey].
  unfold Binary64.toR.
  repeat split.
  - apply Binary64Facts.finiteSF_isFinite.
    now rewrite add_spec, sub_spec, !mul_spec.
  - apply Binary64Facts.finiteSF_isFinite.
    now rewrite !add_spec, !mul_spec.
  - now rewrite add_spec, sub_spec, !mul_spec.
  - now rewrite !add_spec, !mul_spec.
Qed.

Section QuarterTurns.

Variables Math_cos Math_sin : number -> number.

(** What is asked of the engine: at the three arguments that the
    angles 90, 180 and -90 give, its cosine and sine are finite and
    within [eps] of the real functions, for some [eps] that leaves room
    under the tolerance. *)
Variable eps : R.
Hypothesis eps_small : (eps <= 9 / 10 ^ 13)%R.
Hypothesis cos_accurate :
  forall a, In a [90; 180; -90]%float -> accurate Math_cos cos eps (radians a).
Hypothesis sin_accurate :
  forall a, In a [90; 180; -90]%float -> accurate Math_sin sin eps (radians a).

Lemma rotate_unit_within (a : number) (c s : R) :
  In a [90; 180; -90]%float ->
  (Rabs (cos (Binary64.toR (radians a)) - c) <= / 10 ^ 13)%R ->
  (Rabs (sin (Binary64.toR (radians a)) - s) <= / 10 ^ 13)%R ->
  within (/ 10 ^ 12) (rotate Math_cos Math_sin 1%float 0%float a 0%float 0%float)
         c s.
Proof.
  intros Ha Hc Hs.
  destruct (cos_accurate a Ha) as [Fc Ac], (sin_accurate a Ha) as [Fs As].
  destruct (rotate_unit Math_cos Math_sin a Fc Fs) as (Fx & Fy & Ex & Ey).
  unfold within. rewrite Ex, Ey. repeat split; try assumption.
  - replace (Binary64.toR (Math_cos (radians a)) - c)%R
      with ((Binary64.toR (Math_cos (radians a)) - cos (Binary64.toR (radians a)))
            + (cos (Binary64.toR (radians a)) - c))%R by ring.
    eapply Rle_trans; [apply Rabs_triang|]. lra.
  - replace (Binary64.toR (Math_sin (radians a)) - s)%R
      with ((Binary64.toR (Math_sin (radians a)) - sin (Binary64.toR (radians a)))
            + (sin (Binary64.toR (radians a)) - s))%R by ring.
    eapply Rle_trans; [apply Rabs_triang|]. lra.
Qed.

(** C1. [rotate] returns the pair of the two formulas, evaluated in
    double arithmetic with the engine's cosine and sine of
    [angle * PI / 180].  The rotation is counterclockwise: with an
    engine that is accurate at the three arguments, [(1, 0)] is taken
    by 90 degrees to within [1e-12] of [(0, 1)], by 180 degrees to
    within [1e-12] of [(-1, 0)], and by -90 degrees to within [1e-12]
    of [(0, -1)]. *)
Theorem rotate_counterclockwise :
  (forall x y angle cx cy,
      rotate Math_cos Math_sin x y angle cx cy =
      (Math_cos (angle * Math_PI / 180) * (x - cx)
         - Math_sin (angle * Math_PI / 180) * (y - cy) + cx,
       Math_sin (angle * Math_PI / 180) * (x - cx)
         + Math_cos (angle * Math_PI / 180) * (y - cy) + cy)%float) /\
  within (/ 10 ^ 12)
    (rotate Math_cos Math_sin 1%float 0%float 90%float 0%float 0%float) 0 1 /\
  within (/ 10 ^ 12)
    (rotate Math_cos Math_sin 1%float 0%float 180%float 0%float 0%float) (-1) 0 /\
  within (/ 10 ^ 12)
    (rotate Math_cos Math_sin 1%float 0%float (-90)%float 0%float 0%float) 0 (-1).
Proof.
  split; [reflexivity|].
  split; [|split].
  - apply rotate_unit_within; [simpl; auto | apply trig_quarter..].
  - apply rotate_unit_within; [simpl; auto | apply trig_half..].
  - apply rotate_unit_within; [simpl; auto | apply trig_minus_quarter..].
Qed.

End QuarterTurns.

Section SampleEngine.

Local Open Scope R_scope.

Lemma Rabs_between (x c e v : R) :
  Rabs (x - c) <= e -> c - 8 / 10 ^ 13 <= v <= c + 8 / 10 ^ 13 ->
  Rabs (v - x) <= e + 8 / 10 ^ 13.
Proof.
  intros Hx Hv.
  pose proof (Rle_abs (x - c)) as H1.
  pose proof (Rle_abs (- (x - c))) as H2. rewrite Rabs_Ropp in H2.
  apply Rabs_le. lra.
Qed.

Lemma sample_accurate :
  (forall a, In a [90; 180; -90]%float ->
             accurate sampleCos cos (9 / 10 ^ 13) (radians a)) /\
  (forall a, In a [90; 180; -90]%float ->
             accurate sampleSin sin (9 / 10 ^ 13) (radians a)).
Proof.
  assert (E1 : Binary64.toR 0x1.1a62633145c07p-54%float
               = 4967757600021511 / 81129638414606681695789005144064)
    by reflexivity.
  assert (E2 : Binary64.toR 0x1.1a62633145c07p-53%float
               = 4967757600021511 / 40564819207303340847894502572032)
    by reflexivity.
  assert (E3 : Binary64.toR 1%float = 4503599627370496 / 4503599627370496)
    by reflexivity.
  assert (E4 : Binary64.toR (-1)%float = -4503599627370496 / 4503599627370496)
    by reflexivity.
  replace (9 / 10 ^ 13) with (/ 10 ^ 13 + 8 / 10 ^ 13) by lra.
  destruct trig_quarter as [Cq Sq], trig_half as [Ch Sh],
           trig_minus_quarter as [Cm Sm].
  split; intros a [<-|[<-|[<-|[]]]]; (split; [reflexivity|]).
  - change (sampleCos (radians 90%float)) with 0x1.1a62633145c07p-54%float.
    rewrite E1. apply (Rabs_between _ _ _ _ Cq). lra.
  - change (sampleCos (radians 180%float)) with (-1)%float.
    rewrite E4. apply (Rabs_between _ _ _ _ Ch). lra.
  - change (sampleCos (radians (-90)%float)) with 0x1.1a62633145c07p-54%float.
    rewrite E1. apply (Rabs_between _ _ _ _ Cm). lra.
  - change (sampleSin (radians 90%float)) with 1%float.
    rewrite E3. apply (Rabs_between _ _ _ _ Sq). lra.
  - change (sampleSin (radians 180%float)) with 0x1.1a62633145c07p-53%float.
    rewrite E2. apply (Rabs_between _ _ _ _ Sh). lra.
  - change (sampleSin (radians (-90)%float)) with (-1)%float.
    rewrite E4. apply (Rabs_between _ _ _ _ Sm). lra.
Qed.

Lemma rotate_counterclockwise_witness :
  within (/ 10 ^ 12)
    (rotate sampleCos sampleSin 1%float 0%float 90%float 0%float 0%float) 0 1.
Proof.
  apply (proj1 (proj2 (rotate_counterclockwise sampleCos sampleSin (9 / 10 ^ 13)
                         (Rle_refl _)
                         (proj1 sample_accurate) (proj2 sample_accurate)))).
Defined.

End SampleEngine.

(** * Further properties *)

(** ** White space *)

Lemma trimStart_white (w s : string) :
  allWhite w = true -> trimStart (w ++ s) = trimStart s.
Proof.
  induction w as [|c w IH]; simpl; [reflexivity|].
  intros H. apply andb_prop in H as [Hc Hw]. rewrite Hc. auto.
Qed.

Lemma trimEnd_white_nil (w : string) : allWhite w = true -> trimEnd w = EmptyString.
Proof.
  induction w as [|c w IH]; simpl; [reflexivity|].
  intros H. apply andb_prop in H as [Hc Hw]. now rewrite IH, Hc.
Qed.

Lemma trimEnd_white (s w : string) :
  allWhite w = true -> trimEnd (s ++ w) = trimEnd s.
Proof.
  intros Hw. induction s as [|c s IH]; simpl.
  - now apply trimEnd_white_nil.
  - now rewrite IH.
Qed.

Lemma app_assoc_string (a b c : string) : (a ++ b) ++ c = a ++ (b ++ c).
Proof. induction a as [|x a IH]; simpl; [reflexivity | now rewrite IH]. Qed.

Lemma trim_white (w1 w2 s : string) :
  allWhite w1 = true -> allWhite w2 = true -> trim (w1 ++ s ++ w2) = trim s.
Proof.
  intros H1 H2. unfold trim.
  rewrite <- !trim_comm, <- app_assoc_string, trimEnd_white by assumption.
  now rewrite !trim_comm, trimStart_white.
Qed.

(** X1. White space around the argument plays no part in [parsePoints]:
    the result, and the message of the error, are those of the argument
    without it. *)
Theorem parsePoints_surrounding_space (w1 w2 s : string) :
  allWhite w1 = true -> allWhite w2 = true ->
  parsePoints (w1 ++ s ++ w2) = parsePoints s.
Proof.
  intros H1 H2. unfold parsePoints. now rewrite trim_white.
Qed.

Lemma parsePoints_surrounding_space_witness :
  parsePoints ("  " ++ "[(1,2) (3,4)]" ++ " ") = parsePoints "[(1,2) (3,4)]".
Proof.
  apply (parsePoints_surrounding_space "  " " " "[(1,2) (3,4)]"); reflexivity.
Defined.

(** X2. On an argument that carries no white space at its ends,
    [parseCenter] returns a point exactly when the argument starts with
    [(] and [parsePoints] returns that point alone. *)
Theorem parseCenter_agrees_with_parsePoints (s : string) (p : Point) :
  trim s = s ->
  (parseCenter s = Return p <->
   startsWith s "(" = true /\ parsePoints s = Return [p]).
Proof.
  intros Ht. rewrite parsePoints_unfold, Ht. unfold parseCenter.
  destruct (startsWith s "(") eqn:Hs.
  - rewrite collect_paren by assumption. unfold parsedOf.
    destruct (parsePoint s) as [[x y]|]; simpl.
    + split.
      * intros H. injection H as <-. auto.
      * intros [_ H]. injection H as <-. reflexivity.
    + split; [discriminate | intros [_ H]; discriminate H].
  - split; [discriminate | intros [H _]; discriminate H].
Qed.

Lemma parseCenter_agrees_with_parsePoints_witness :
  parseCenter "(256,256)" = Return (256, 256)%float <->
  startsWith "(256,256)" "(" = true /\
  parsePoints "(256,256)" = Return [(256, 256)%float].
Proof.
  apply (parseCenter_agrees_with_parsePoints "(256,256)" (256, 256)%float).
  reflexivity.
Defined.

(** ** Shape of a point *)

Lemma split_length (c : ascii) (s : string) :
  List.length (split c s) = S (countChar c s).
Proof.
  induction s as [|d r IH]; simpl; [reflexivity|].
  destruct (Ascii.eqb d c); simpl; [now rewrite IH|].
  destruct (split c r) as [|q qs] eqn:E; [now destruct (split_not_nil _ _ E)|].
  exact IH.
Qed.

Lemma split_one (c : ascii) (s b : string) : split c s = [b] -> s = b.
Proof.
  revert b. induction s as [|d r IH]; intros b; simpl.
  - intros H. now injection H.
  - destruct (Ascii.eqb d c).
    + intros H. injection H as _ H. now destruct (split_not_nil _ _ H).
    + destruct (split c r) as [|q qs] eqn:E; [now destruct (split_not_nil _ _ E)|].
      intros H. injection H as <- ->. f_equal. now apply IH.
Qed.

Lemma split_two (c : ascii) (s a b : string) :
  split c s = [a; b] -> s = a ++ String c b.
Proof.
  revert a. induction s as [|d r IH]; intros a; simpl; [discriminate|].
  destruct (Ascii.eqb d c) eqn:Ed.
  - apply Ascii.eqb_eq in Ed; subst d. intros H. injection H as <- H.
    simpl. f_equal. now apply split_one with c.
  - destruct (split c r) as [|q qs] eqn:E; [discriminate|].
    intros H. injection H as <- ->. simpl. f_equal. now apply IH.
Qed.

Lemma ends_of_string (s : string) :
  (2 <= String.length s)%nat ->
  exists a inner b, s = String a (inner ++ String b EmptyString).
Proof.
  destruct s as [|a r]; simpl; [lia|]. intros H. exists a.
  assert (Hr : (1 <= String.length r)%nat) by lia. clear H.
  induction r as [|c r IH]; simpl in Hr; [lia|].
  destruct r as [|d r'].
  - now exists EmptyString, c.
  - destruct IH as (inner & b & E); [simpl; lia|].
    exists (String c inner), b. injection E as E. simpl. now rewrite E.
Qed.

Lemma slice_1_m1_length (s : string) :
  String.length (slice s 1 (-1)) = (String.length s - 2)%nat.
Proof.
  destruct (le_lt_dec 2 (String.length s)) as [H|H].
  - destruct (ends_of_string s H) as (a & inner & b & ->).
    rewrite slice_1_m1. simpl. rewrite length_app. simpl. lia.
  - rewrite slice_1_m1_short by lia. simpl. lia.
Qed.

(** X3. A string that [parsePoint] accepts has at least five
    characters, and exactly one comma between its first and its last:
    neither side of the comma may be empty, since [parseFloat] reads
    the empty string as [NaN]. *)
Theorem parsePoint_shape (s : string) (p : Point) :
  parsePoint s = Some p ->
  (5 <= String.length s)%nat /\ countChar "," (slice s 1 (-1)) = 1%nat.
Proof.
  rewrite parsePoint_unfold. unfold twoParts.
  pose proof (split_length "," (slice s 1 (-1))) as Hl.
  destruct (split "," (slice s 1 (-1))) as [|a [|b [|c l]]] eqn:E;
    try discriminate.
  simpl. intros H.
  assert (Ha : a <> EmptyString).
  { intros ->. change (isNaN (parseFloat (trim EmptyString))) with true in H.
    discriminate H. }
  assert (Hb : b <> EmptyString).
  { intros ->. change (isNaN (parseFloat (trim EmptyString))) with true in H.
    rewrite orb_true_r in H. discriminate H. }
  split; [|simpl in Hl; lia].
  apply split_two in E. pose proof (slice_1_m1_length s) as Hs.
  rewrite E, length_app in Hs. simpl in Hs.
  destruct a; [now destruct Ha|]. destruct b; [now destruct Hb|].
  simpl in Hs. lia.
Qed.

Lemma parsePoint_shape_witness :
  (5 <= String.length "(1,2)")%nat /\ countChar "," (slice "(1,2)" 1 (-1)) = 1%nat.
Proof.
  apply (parsePoint_shape "(1,2)" (1, 2)%float). vm_compute. reflexivity.
Defined.

Lemma countChar_app (c : ascii) (a b : string) :
  countChar c (a ++ b) = (countChar c a + countChar c b)%nat.
Proof.
  induction a as [|d a IH]; simpl; [reflexivity|].
  destruct (Ascii.eqb d c); simpl; now rewrite IH.
Qed.

Lemma split_no_sep (c : ascii) (x : string) :
  countChar c x = O -> split c x = [x].
Proof.
  induction x as [|d x IH]; simpl; [reflexivity|].
  destruct (Ascii.eqb d c); [discriminate|].
  intros H. now rewrite IH.
Qed.

Lemma split_at_sep (c : ascii) (x y : string) :
  countChar c x = O -> split c (x ++ String c y) = x :: split c y.
Proof.
  induction x as [|d x IH]; simpl.
  - now rewrite Ascii.eqb_refl.
  - destruct (Ascii.eqb d c); [discriminate|].
    intros H. now rewrite IH.
Qed.

Lemma allWhite_no_comma (w : string) :
  allWhite w = true -> countChar "," w = O.
Proof.
  induction w as [|c w IH]; simpl; [reflexivity|].
  intros H. apply andb_prop in H as [Hc Hw].
  rewrite (comma_not_space c Hc). auto.
Qed.

(** A parenthesized pair of comma-free texts is read part by part. *)
Lemma parsePoint_pair (x y : string) :
  countChar "," x = O -> countChar "," y = O ->
  parsePoint ("(" ++ (x ++ String "," y) ++ ")") =
  if isNaN (parseFloat (trim x)) || isNaN (parseFloat (trim y)) then None
  else Some (parseFloat (trim x), parseFloat (trim y)).
Proof.
  intros Hx Hy. rewrite parsePoint_unfold. unfold twoParts.
  change ("(" ++ (x ++ String "," y) ++ ")")
    with (String "(" ((x ++ String "," y) ++ String ")" EmptyString)).
  rewrite slice_1_m1, split_at_sep, (split_no_sep _ y) by assumption.
  reflexivity.
Qed.

(** X4. White space next to the parentheses and around the comma plays
    no part in [parsePoint]. *)
Theorem parsePoint_inner_space (a b w1 w2 w3 w4 : string) :
  allWhite w1 = true -> allWhite w2 = true ->
  allWhite w3 = true -> allWhite w4 = true ->
  countChar "," a = O -> countChar "," b = O ->
  parsePoint ("(" ++ ((w1 ++ a ++ w2) ++ String "," (w3 ++ b ++ w4)) ++ ")")
  = parsePoint ("(" ++ (a ++ String "," b) ++ ")").
Proof.
  intros H1 H2 H3 H4 Ha Hb.
  assert (Hx : countChar "," (w1 ++ a ++ w2) = O).
  { rewrite !countChar_app, Ha.
    now rewrite (allWhite_no_comma w1), (allWhite_no_comma w2). }
  assert (Hy : countChar "," (w3 ++ b ++ w4) = O).
  { rewrite !countChar_app, Hb.
    now rewrite (allWhite_no_comma w3), (allWhite_no_comma w4). }
  rewrite !parsePoint_pair by assumption.
  now rewrite !trim_white.
Qed.

Lemma parsePoint_inner_space_witness :
  parsePoint ("(" ++ ((" " ++ "50" ++ "  ") ++ String "," (" " ++ "96" ++ " ")) ++ ")")
  = parsePoint ("(" ++ ("50" ++ String "," "96") ++ ")").
Proof.
  apply (parsePoint_inner_space "50" "96" " " "  " " " " "); reflexivity.
Defined.

(** ** Brackets without a candidate *)

Lemma IsGroup_parens (m : string) :
  PointRegex.IsGroup m ->
  (1 <= countChar "(" m)%nat /\ (1 <= countChar ")" m)%nat.
Proof.
  intros [b _ _]. split.
  - simpl. lia.
  - change ("(" ++ b ++ ")") with (String "(" (b ++ ")")).
    cbn [countChar]. change (Ascii.eqb "(" ")") with false. cbv iota.
    rewrite countChar_app. simpl. lia.
Qed.

Lemma Scan_none (s : string) :
  countChar "(" s = O \/ countChar ")" s = O -> PointRegex.Scan s [].
Proof.
  induction s as [|c r IH]; intros H; [constructor|].
  apply PointRegex.Scan_skip.
  - intros m rest Hm E. apply IsGroup_parens in Hm as [H1 H2].
    rewrite E, !countChar_app in H. lia.
  - apply IH. simpl in H.
    destruct (Ascii.eqb c "("), (Ascii.eqb c ")"); lia.
Qed.

(** X5. A bracketed argument whose interior lacks an opening or a
    closing parenthesis holds no candidate, and [parsePoints] throws:
    so for [[]], [[ ]] and [[1,2]]. *)
Theorem parsePoints_bracket_without_parens (s : string) :
  startsWith (trim s) "[" = true ->
  countChar "(" (bracketInterior (trim s)) = O \/
  countChar ")" (bracketInterior (trim s)) = O ->
  parsePoints s = Throw (invalidPoints (trim s)).
Proof.
  intros Hs Hc. rewrite parsePoints_unfold, collect_bracket by assumption.
  apply Scan_none, PointRegexFacts.matchAll_Scan in Hc. now rewrite Hc.
Qed.

Lemma parsePoints_bracket_without_parens_witness :
  parsePoints "[1,2)]" = Throw (invalidPoints (trim "[1,2)]")).
Proof.
  apply (parsePoints_bracket_without_parens "[1,2)]"); [reflexivity|].
  left. reflexivity.
Defined.

(** ** NaN in [rotate] *)

Module NaNFacts.

Lemma is_nan_eq (x : number) : isNaN x = true -> x = nan.
Proof.
  intros H. rewrite <- (SF2Prim_Prim2SF x). unfold Prim2SF.
  unfold isNaN in H. now rewrite H.
Qed.

Lemma mul_nan_l (y : number) : (nan * y)%float = nan.
Proof. apply Prim2SF_inj. rewrite mul_spec. reflexivity. Qed.

Lemma mul_nan_r (y : number) : (y * nan)%float = nan.
Proof.
  apply Prim2SF_inj. rewrite mul_spec.
  change (Prim2SF nan) with S754_nan. now destruct (Prim2SF y).
Qed.

Lemma add_nan_l (y : number) : (nan + y)%float = nan.
Proof. apply Prim2SF_inj. rewrite add_spec. reflexivity. Qed.

Lemma add_nan_r (y : number) : (y + nan)%float = nan.
Proof.
  apply Prim2SF_inj. rewrite add_spec.
  change (Prim2SF nan) with S754_nan. now destruct (Prim2SF y).
Qed.

Lemma sub_nan_l (y : number) : (nan - y)%float = nan.
Proof. apply Prim2SF_inj. rewrite sub_spec. reflexivity. Qed.

Lemma sub_nan_r (y : number) : (y - nan)%float = nan.
Proof.
  apply Prim2SF_inj. rewrite sub_spec.
  change (Prim2SF nan) with S754_nan. now destruct (Prim2SF y).
Qed.

End NaNFacts.

Create Rewrite HintDb nan_absorb.
#[local] Hint Rewrite NaNFacts.mul_nan_l NaNFacts.mul_nan_r NaNFacts.add_nan_l
  NaNFacts.add_nan_r NaNFacts.sub_nan_l NaNFacts.sub_nan_r : nan_absorb.

(** X6. Whatever the engine's cosine and sine are, a [NaN] among the
    coordinates of the point or of the center makes both coordinates of
    the result [NaN]. *)
Theorem rotate_nan_coordinate (Math_cos Math_sin : number -> number)
    (x y angle cx cy : number) :
  isNaN x || isNaN y || isNaN cx || isNaN cy = true ->
  rotate Math_cos Math_sin x y angle cx cy = (nan, nan).
Proof.
  intros H. unfold rotate.
  repeat (apply orb_prop in H as [H|H]);
    apply NaNFacts.is_nan_eq in H; subst;
    now autorewrite with nan_absorb.
Qed.

Lemma rotate_nan_coordinate_witness :
  rotate sampleCos sampleSin 1%float nan 90%float 0%float 0%float = (nan, nan).
Proof.
  apply (rotate_nan_coordinate sampleCos sampleSin 1%float nan 90%float
           0%float 0%float).
  reflexivity.
Defined.

(** X7. ECMAScript fixes the cosine and the sine of an infinity to
    [NaN].  When [angle * PI / 180] is infinite, as it is for an
    infinite angle and for a finite one from about [1e307] on, the
    result is [(NaN, NaN)] for every point and center. *)
Theorem rotate_infinite_radians (Math_cos Math_sin : number -> number)
    (x y angle cx cy : number) :
  (forall r, is_infinity r = true -> Math_cos r = nan) ->
  (forall r, is_infinity r = true -> Math_sin r = nan) ->
  is_infinity (angle * Math_PI / 180)%float = true ->
  rotate Math_cos Math_sin x y angle cx cy = (nan, nan).
Proof.
  intros Hc Hs Hr. unfold rotate. rewrite (Hc _ Hr), (Hs _ Hr).
  now autorewrite with nan_absorb.
Qed.

Lemma rotate_infinite_radians_witness :
  rotate (fun _ => nan) (fun _ => nan) 1%float 0%float 0x1p1023%float
         0%float 0%float = (nan, nan).
Proof.
  apply (rotate_infinite_radians (fun _ => nan) (fun _ => nan)
           1%float 0%float 0x1p1023%float 0%float 0%float);
    reflexivity.
Defined.

(** ** Formatting *)

Module JSFormatFacts.
Import JSFormat.

Lemma allZeros_app (a b : string) :
  allZeros (a ++ b) = allZeros a && allZeros b.
Proof.
  induction a as [|c a IH]; simpl; [reflexivity|].
  now rewrite IH, andb_assoc.
Qed.

Lemma allZeros_zeros (k : nat) : allZeros (zeros k) = true.
Proof. induction k; simpl; auto. Qed.

Lemma someZeros_allZeros (s : string) : someZeros s = true -> allZeros s = true.
Proof. destruct s; [discriminate | exact (fun H => H)]. Qed.

Lemma allZeros_with (p q : string) (d : ascii) :
  Ascii.eqb d "0" = false -> allZeros (p ++ String d q) = false.
Proof.
  intros Hd. rewrite allZeros_app. simpl. rewrite Hd.
  now rewrite andb_false_r.
Qed.

Lemma someZeros_with (p q : string) (d : ascii) :
  Ascii.eqb d "0" = false -> someZeros (p ++ String d q) = false.
Proof.
  intros Hd. destruct (someZeros (p ++ String d q)) eqn:E; [|reflexivity].
  apply someZeros_allZeros in E. now rewrite allZeros_with in E.
Qed.

Lemma matchesTail_with (p q : string) (d : ascii) :
  Ascii.eqb d "0" = false -> p <> EmptyString ->
  matchesTail (p ++ String d q) = false.
Proof.
  intros Hd Hp. unfold matchesTail. rewrite someZeros_with by assumption.
  destruct p as [|c [|c' p']]; [now destruct Hp | |].
  - simpl. now rewrite Hd, andb_false_r.
  - change ((String c (String c' p')) ++ String d q)
      with (String c (String c' p' ++ String d q)).
    cbv iota. rewrite someZeros_with by assumption.
    now rewrite andb_false_r.
Qed.

(** The point and the zeros behind it go. *)
Lemma replace_point_zeros (a : string) (k : nat) :
  replaceTrailingZeros (a ++ String "." (zeros (S k))) = a.
Proof.
  induction a as [|c a IH].
  - cbn [append replaceTrailingZeros].
    assert (matchesTail (String "." (zeros (S k))) = true) as ->; [|reflexivity].
    unfold matchesTail. simpl. now rewrite allZeros_zeros.
  - change (String c a ++ String "." (zeros (S k)))
      with (String c (a ++ String "." (zeros (S k)))).
    cbn [replaceTrailingZeros].
    change (String c (a ++ String "." (zeros (S k))))
      with (String c a ++ String "." (zeros (S k))).
    rewrite matchesTail_with by (reflexivity || discriminate).
    cbn [append]. now rewrite IH.
Qed.

(** Zeros behind a character that is neither a zero nor the point go,
    and nothing else. *)
Lemma replace_after (p : string) (d : ascii) (k : nat) :
  Ascii.eqb d "0" = false -> Ascii.eqb d "." = false ->
  replaceTrailingZeros (p ++ String d (zeros k)) = p ++ String d EmptyString.
Proof.
  intros H0 Hp. induction p as [|c p IH].
  - cbn [append replaceTrailingZeros]. unfold matchesTail at 1.
    cbn [someZeros]. rewrite H0, Hp. cbn [andb orb].
    f_equal. destruct k; [reflexivity|].
    cbn [zeros replaceTrailingZeros].
    assert (matchesTail (String "0" (zeros k)) = true) as ->; [|reflexivity].
    unfold matchesTail. simpl. now rewrite allZeros_zeros.
  - change (String c p ++ String d (zeros k))
      with (String c (p ++ String d (zeros k))).
    cbn [replaceTrailingZeros].
    change (String c (p ++ String d (zeros k)))
      with (String c p ++ String d (zeros k)).
    rewrite matchesTail_with by (assumption || discriminate).
    cbn [append]. now rewrite IH.
Qed.

(** One more zero behind a character that is not the point changes
    nothing. *)
Lemma replace_extra_zero (p : string) (c : ascii) :
  Ascii.eqb c "." = false ->
  replaceTrailingZeros (p ++ String c "0") = replaceTrailingZeros (p ++ String c EmptyString).
Proof.
  intros Hc.
  assert (Hs : forall t, t <> EmptyString ->
                         someZeros (t ++ "0") = someZeros t).
  { intros [|x r] Ht; [now destruct Ht|]. simpl.
    now rewrite allZeros_app, andb_true_r. }
  induction p as [|x p IH].
  - cbn [append replaceTrailingZeros]. unfold matchesTail.
    cbn [someZeros allZeros]. rewrite Hc. cbn [andb orb].
    rewrite andb_true_r.
    destruct (Ascii.eqb c "0"); reflexivity.
  - change (String x p ++ String c "0") with (String x (p ++ String c "0")).
    change (String x p ++ String c EmptyString)
      with (String x (p ++ String c EmptyString)).
    cbn [replaceTrailingZeros]. rewrite IH. unfold matchesTail.
    replace (p ++ String c "0") with ((p ++ String c EmptyString) ++ "0")
      by (now rewrite app_assoc_string).
    change (String x ((p ++ String c EmptyString) ++ "0"))
      with (String x (p ++ String c EmptyString) ++ "0").
    rewrite !Hs; [reflexivity | | discriminate].
    destruct p; discriminate.
Qed.

End JSFormatFacts.

Module DecimalFacts.
Import JSFormat.

Lemma pow10_succ (f : nat) : 10 ^ Z.of_nat (S f) = 10 * 10 ^ Z.of_nat f.
Proof. rewrite Nat2Z.inj_succ, Z.pow_succ_r by lia. reflexivity. Qed.

Lemma pow10_pos (f : nat) : 0 < 10 ^ Z.of_nat f.
Proof. apply Z.pow_pos_nonneg; lia. Qed.

(** Enough fuel gives the digits, whatever the fuel. *)
Lemma decimalFrom_fuel (f1 : nat) : forall f2 n,
  0 <= n -> n < 10 ^ Z.of_nat (S f1) -> n < 10 ^ Z.of_nat (S f2) ->
  decimalFrom (S f1) n = decimalFrom (S f2) n.
Proof.
  induction f1 as [|f1 IH]; intros f2 n H0 H1 H2.
  - change (10 ^ Z.of_nat 1) with 10 in H1.
    cbn [decimalFrom]. apply Z.ltb_lt in H1. now rewrite H1.
  - cbn [decimalFrom]. destruct (n <? 10) eqn:E; [reflexivity|].
    apply Z.ltb_ge in E.
    destruct f2 as [|f2].
    + change (10 ^ Z.of_nat 1) with 10 in H2. lia.
    + rewrite pow10_succ in H1, H2.
      assert (0 <= n / 10) by (apply Z.div_pos; lia).
      assert (n / 10 < 10 ^ Z.of_nat (S f1))
        by (apply Z.div_lt_upper_bound; lia).
      assert (n / 10 < 10 ^ Z.of_nat (S f2))
        by (apply Z.div_lt_upper_bound; lia).
      f_equal. now apply IH.
Qed.

Lemma decimal_bound (n : Z) :
  0 <= n -> n < 10 ^ Z.of_nat (S (Z.to_nat (Z.log2 n))).
Proof.
  intros H0. rewrite Nat2Z.inj_succ, Z2Nat.id by apply Z.log2_nonneg.
  destruct (Z.eq_dec n 0) as [->|Hn]; [reflexivity|].
  destruct (Z.log2_spec n) as [_ Hl]; [lia|].
  apply Z.lt_le_trans with (1 := Hl).
  apply Z.pow_le_mono_l. pose proof (Z.log2_nonneg n). lia.
Qed.

Lemma decimal_fuel (f : nat) (n : Z) :
  0 <= n -> n < 10 ^ Z.of_nat (S f) -> decimalFrom (S f) n = decimal n.
Proof.
  intros H0 H1. unfold decimal.
  apply decimalFrom_fuel; [assumption..|]. now apply decimal_bound.
Qed.

Lemma decimal_digit (n : Z) :
  0 <= n < 10 -> decimal n = String (digitChar n) EmptyString.
Proof.
  intros [H0 H1]. unfold decimal. cbn [decimalFrom].
  apply Z.ltb_lt in H1. now rewrite H1.
Qed.

Lemma decimal_step (q d : Z) :
  1 <= q -> 0 <= d < 10 ->
  decimal (10 * q + d) = decimal q ++ String (digitChar d) EmptyString.
Proof.
  intros Hq Hd. unfold decimal at 1. cbn [decimalFrom].
  assert (E : (10 * q + d <? 10) = false) by (apply Z.ltb_ge; lia).
  rewrite E.
  replace ((10 * q + d) / 10) with q
    by (apply Z.div_unique with d; lia).
  replace ((10 * q + d) mod 10) with d
    by (apply Z.mod_unique with q; lia).
  f_equal.
  pose proof (decimal_bound (10 * q + d) ltac:(lia)) as Hb.
  destruct (Z.to_nat (Z.log2 (10 * q + d))) as [|f] eqn:Ef.
  - change (10 ^ Z.of_nat 1) with 10 in Hb. lia.
  - apply decimal_fuel; [lia|]. rewrite pow10_succ in Hb.
    pose proof (pow10_pos (S f)). lia.
Qed.

Lemma decimal_not_nil (n : Z) : decimal n <> EmptyString.
Proof.
  unfold decimal. cbn [decimalFrom]. destruct (n <? 10); [discriminate|].
  destruct (decimalFrom _ _); discriminate.
Qed.

Lemma fixedWidth_length (w : nat) : forall r, String.length (fixedWidth w r) = w.
Proof.
  induction w as [|w IH]; intros r; simpl; [reflexivity|].
  rewrite length_app, IH. simpl. lia.
Qed.

Lemma zeros_length (k : nat) : String.length (zeros k) = k.
Proof. induction k; simpl; auto. Qed.

Lemma zeros_snoc (k : nat) : zeros k ++ "0" = zeros (S k).
Proof. induction k as [|k IH]; simpl; [reflexivity | now rewrite IH]. Qed.

Lemma fixedWidth_zero (w : nat) : fixedWidth w 0 = zeros w.
Proof.
  induction w as [|w IH]; [reflexivity|].
  cbn [fixedWidth]. change (0 / 10) with 0. rewrite IH.
  change (String (digitChar (0 mod 10)) EmptyString) with "0".
  apply zeros_snoc.
Qed.

(** They are the digits of the quotient by [10^w] and the [w] digits
    of the remainder. *)
Lemma padded_split (w : nat) : forall n,
  0 <= n ->
  padded w n = decimal (n / 10 ^ Z.of_nat w) ++ fixedWidth w (n mod 10 ^ Z.of_nat w).
Proof.
  induction w as [|w IH]; intros n Hn.
  - unfold padded. change (10 ^ Z.of_nat 0) with 1.
    rewrite Z.div_1_r. cbn [fixedWidth].
    assert (E : (String.length (decimal n) <=? 0)%nat = false).
    { apply Nat.leb_gt. pose proof (decimal_not_nil n).
      destruct (decimal n); [congruence | simpl; lia]. }
    rewrite E. clear. induction (decimal n); simpl; congruence.
  - pose proof (Z.div_mod n 10 ltac:(lia)) as Hdm.
    pose proof (Z.mod_pos_bound n 10 ltac:(lia)) as Hd.
    assert (Hq0 : 0 <= n / 10) by (apply Z.div_pos; lia).
    set (q := n / 10) in *. set (d := n mod 10) in *.
    pose proof (pow10_pos w) as Hp.
    assert (Ediv : n / 10 ^ Z.of_nat (S w) = q / 10 ^ Z.of_nat w).
    { rewrite pow10_succ, <- Z.div_div by lia. reflexivity. }
    assert (Emod : n mod 10 ^ Z.of_nat (S w) = 10 * (q mod 10 ^ Z.of_nat w) + d).
    { rewrite pow10_succ, Z.rem_mul_r by lia. fold q d. lia. }
    rewrite Ediv, Emod. cbn [fixedWidth].
    replace ((10 * (q mod 10 ^ Z.of_nat w) + d) / 10) with (q mod 10 ^ Z.of_nat w)
      by (apply Z.div_unique with d; lia).
    replace ((10 * (q mod 10 ^ Z.of_nat w) + d) mod 10) with d
      by (apply Z.mod_unique with (q mod 10 ^ Z.of_nat w); lia).
    rewrite <- app_assoc_string, <- IH by assumption.
    destruct (Z.eq_dec q 0) as [Eq|Eq].
    + (* a single digit *)
      assert (En : n = d) by lia.
      unfold padded. rewrite En, Eq, !decimal_digit by lia.
      cbn [String.length].
      replace (1 <=? S w)%nat with true by (symmetry; apply Nat.leb_le; lia).
      destruct w as [|w'].
      * reflexivity.
      * replace (1 <=? S w')%nat with true by (symmetry; apply Nat.leb_le; lia).
        replace (S (S w') + 1 - 1)%nat with (S (S w')) by lia.
        replace (S w' + 1 - 1)%nat with (S w') by lia.
        change (digitChar 0) with "0"%char.
        rewrite app_assoc_string.
        change (String "0" EmptyString ++ String (digitChar d) EmptyString)
          with (String "0" (String (digitChar d) EmptyString)).
        change (zeros (S (S w'))) with (String "0" (zeros (S w'))).
        cbn [append]. f_equal.
        rewrite <- zeros_snoc at 1. now rewrite app_assoc_string.
    + assert (En : n = 10 * q + d) by lia.
      unfold padded. rewrite En, decimal_step by lia.
      rewrite length_app. cbn [String.length].
      replace (String.length (decimal q) + 1 <=? S w)%nat
        with (String.length (decimal q) <=? w)%nat
        by (destruct (Nat.leb_spec (String.length (decimal q)) w);
            symmetry; [apply Nat.leb_le | apply Nat.leb_gt]; lia).
      destruct (String.length (decimal q) <=? w)%nat eqn:El; [|reflexivity].
      apply Nat.leb_le in El.
      replace (S w + 1 - (String.length (decimal q) + 1))%nat
        with (w + 1 - String.length (decimal q))%nat by lia.
      now rewrite app_assoc_string.
Qed.

Lemma substring_app_l (a b : string) :
  substring 0 (String.length a) (a ++ b) = a.
Proof. apply substring_0_app. Qed.

Lemma substring_app_r (a b : string) :
  substring (String.length a) (String.length b) (a ++ b) = b.
Proof.
  induction a as [|c a IH]; simpl; [|exact IH].
  clear. induction b as [|c b IH]; simpl; [reflexivity | now rewrite IH].
Qed.

(** [toFixed] with ten fraction digits, on a non-negative fraction. *)
Lemma fixedDigits_ten (num den : Z) :
  0 <= num -> 0 < den ->
  fixedDigits num den 10 =
  decimal ((2 * num * 10 ^ 10 + den) / (2 * den) / 10 ^ 10)
    ++ String "." (fixedWidth 10 ((2 * num * 10 ^ 10 + den) / (2 * den) mod 10 ^ 10)).
Proof.
  intros Hn Hd. unfold fixedDigits.
  change (Z.of_nat 10) with 10.
  set (n := (2 * num * 10 ^ 10 + den) / (2 * den)).
  assert (H0 : 0 <= n) by (apply Z.div_pos; nia).
  pose proof (padded_split 10 n H0) as Hs. unfold padded in Hs.
  change (Z.of_nat 10) with 10 in Hs.
  cbv zeta. rewrite Hs.
  set (a := decimal (n / 10 ^ 10)). set (b := fixedWidth 10 (n mod 10 ^ 10)).
  assert (Hb : String.length b = 10%nat) by apply fixedWidth_length.
  rewrite length_app, Hb.
  replace (String.length a + 10 - 10)%nat with (String.length a) by lia.
  rewrite substring_app_l.
  rewrite <- Hb at 1. now rewrite substring_app_r.
Qed.

End DecimalFacts.

(** ** The order of the doubles *)

Module Binary64Order.

Lemma digits2_pos_bounds (m : positive) :
  2 ^ (Zpos (digits2_pos m) - 1) <= Zpos m < 2 ^ Zpos (digits2_pos m).
Proof.
  induction m as [m IH|m IH|]; cbn [digits2_pos].
  - rewrite Pos2Z.inj_succ.
    replace (Z.succ (Zpos (digits2_pos m)) - 1)
      with (Z.succ (Zpos (digits2_pos m) - 1)) by lia.
    rewrite !Z.pow_succ_r by lia. lia.
  - rewrite Pos2Z.inj_succ.
    replace (Z.succ (Zpos (digits2_pos m)) - 1)
      with (Z.succ (Zpos (digits2_pos m) - 1)) by lia.
    rewrite !Z.pow_succ_r by lia. lia.
  - simpl. lia.
Qed.

(** The mantissa of a double has at most 53 bits, and exactly 53 above
    the least exponent. *)
Lemma finite_mantissa (x : float) (s : bool) (m : positive) (e : Z) :
  Prim2SF x = S754_finite s m e ->
  Zpos m < 2 ^ 53 /\ (-1074 < e -> 2 ^ 52 <= Zpos m) /\ -1074 <= e <= 971.
Proof.
  intros E. pose proof (Prim2SF_valid x) as V. rewrite E in V.
  unfold valid_binary, bounded, canonical_mantissa in V.
  apply andb_prop in V. destruct V as [V1 V2].
  apply Z.eqb_eq in V1. apply Z.leb_le in V2.
  unfold fexp, emin in V1.
  change prec with 53 in *. change emax with 1024 in *.
  pose proof (digits2_pos_bounds m) as [B1 B2].
  set (d := Zpos (digits2_pos m)) in *.
  assert (Hd : d <= 53) by lia.
  split; [|split; [|lia]].
  - eapply Z.lt_le_trans; [exact B2 | apply Z.pow_le_mono_r; lia].
  - intros He. assert (Hd' : d = 53) by lia. now rewrite Hd' in B1.
Qed.

(** [|x| < c] for a positive finite [c]. *)
Lemma abs_lt_const (x c : float) (mc : positive) (ec : Z) :
  Prim2SF c = S754_finite false mc ec ->
  (abs x <? c)%float = true ->
  (exists s, Prim2SF x = S754_zero s) \/
  (exists s m e, Prim2SF x = S754_finite s m e /\
                 (e < ec \/ (e = ec /\ Zpos m < Zpos mc))).
Proof.
  intros Hc H. rewrite ltb_spec, abs_spec, Hc in H.
  destruct (Prim2SF x) as [s|s| |s m e]; try discriminate H.
  - left. now exists s.
  - right. exists s, m, e. split; [reflexivity|].
    unfold SFltb, SFabs, SFcompare in H.
    destruct (Z.compare_spec e ec) as [E|E|E]; try discriminate H.
    + right. split; [assumption|].
      change (Pos.compare_cont Eq m mc) with (Pos.compare m mc) in H.
      destruct (Pos.compare_spec m mc); try discriminate H. lia.
    + now left.
Qed.

(** [c <= |x|] for a positive finite [c] and a finite [x]. *)
Lemma const_le_abs (x c : float) (mc : positive) (ec : Z) :
  Prim2SF c = S754_finite false mc ec ->
  (c <=? abs x)%float = true ->
  (exists s, Prim2SF x = S754_infinity s) \/
  (exists s m e, Prim2SF x = S754_finite s m e /\
                 (ec < e \/ (e = ec /\ Zpos mc <= Zpos m))).
Proof.
  intros Hc H. rewrite leb_spec, abs_spec, Hc in H.
  destruct (Prim2SF x) as [s|s| |s m e]; try discriminate H.
  - left. now exists s.
  - right. exists s, m, e. split; [reflexivity|].
    unfold SFleb, SFabs, SFcompare in H.
    destruct (Z.compare_spec ec e) as [E|E|E]; try discriminate H.
    + right. split; [now symmetry|].
      change (Pos.compare_cont Eq mc m) with (Pos.compare mc m) in H.
      destruct (Pos.compare_spec mc m); try discriminate H; lia.
    + now left.
Qed.

(** [x < 0]: a finite number with the sign bit, a zero apart. *)
Lemma ltb_zero (x : float) :
  isFinite x = true ->
  (x <? 0)%float = match Prim2SF x with S754_finite true _ _ => true | _ => false end.
Proof.
  intros Hf. apply Binary64Facts.isFinite_finiteSF in Hf.
  rewrite ltb_spec. change (Prim2SF 0) with (S754_zero false).
  destruct (Prim2SF x) as [s|s| |[|] m e]; try discriminate Hf; reflexivity.
Qed.

End Binary64Order.

(** ** [formatCoord] *)

Module FractionFacts.
Import JSFormat.

Lemma app_empty_r (a : string) : a ++ EmptyString = a.
Proof. induction a as [|c a IH]; simpl; [reflexivity | now rewrite IH]. Qed.

Lemma digitChar_not_point (d : Z) :
  0 <= d < 10 -> Ascii.eqb (digitChar d) "." = false.
Proof.
  intros H.
  assert (E : d = 0 \/ d = 1 \/ d = 2 \/ d = 3 \/ d = 4 \/ d = 5 \/ d = 6
              \/ d = 7 \/ d = 8 \/ d = 9) by lia.
  repeat destruct E as [E|E]; subst d; reflexivity.
Qed.

Lemma digitChar_not_zero (d : Z) :
  0 < d < 10 -> Ascii.eqb (digitChar d) "0" = false.
Proof.
  intros H.
  assert (E : d = 1 \/ d = 2 \/ d = 3 \/ d = 4 \/ d = 5 \/ d = 6
              \/ d = 7 \/ d = 8 \/ d = 9) by lia.
  repeat destruct E as [E|E]; subst d; reflexivity.
Qed.

(** The digits of a fraction that is not zero end with a digit that
    is not zero and the zeros after it. *)
Lemma fixedWidth_last (w : nat) : forall r,
  0 < r < 10 ^ Z.of_nat w ->
  exists p d k,
    0 < d < 10 /\
    fixedWidth w r = p ++ String (digitChar d) (zeros k) /\
    fractionDigits w r = p ++ String (digitChar d) EmptyString.
Proof.
  induction w as [|w IH]; intros r Hr.
  - change (10 ^ Z.of_nat 0) with 1 in Hr. lia.
  - rewrite DecimalFacts.pow10_succ in Hr.
    pose proof (Z.div_mod r 10 ltac:(lia)) as Hdm.
    pose proof (Z.mod_pos_bound r 10 ltac:(lia)) as Hm.
    cbn [fixedWidth fractionDigits].
    destruct (r mod 10 =? 0) eqn:E.
    + apply Z.eqb_eq in E.
      destruct (IH (r / 10) ltac:(lia)) as (p & d & k & Hd & Hw & Hf).
      exists p, d, (S k). split; [assumption|]. split; [|assumption].
      rewrite Hw, E, app_assoc_string. cbn [append].
      change (String (digitChar 0) EmptyString) with "0".
      now rewrite DecimalFacts.zeros_snoc.
    + apply Z.eqb_neq in E.
      exists (fixedWidth w (r / 10)), (r mod 10), O.
      split; [lia|]. split; reflexivity.
Qed.

(** What the replacement leaves of an integer part, a point and [w]
    fraction digits. *)
Lemma replace_fraction (a : string) (w : nat) (r : Z) :
  0 <= r < 10 ^ Z.of_nat (S w) ->
  replaceTrailingZeros (a ++ String "." (fixedWidth (S w) r)) =
  if r =? 0 then a else a ++ String "." (fractionDigits (S w) r).
Proof.
  intros Hr. destruct (r =? 0) eqn:E.
  - apply Z.eqb_eq in E. subst r. rewrite DecimalFacts.fixedWidth_zero.
    apply JSFormatFacts.replace_point_zeros.
  - apply Z.eqb_neq in E.
    destruct (fixedWidth_last (S w) r ltac:(lia)) as (p & d & k & Hd & Hw & Hf).
    rewrite Hw, Hf.
    change (a ++ String "." (p ++ String (digitChar d) (zeros k)))
      with (a ++ (String "." p) ++ String (digitChar d) (zeros k)).
    change (a ++ String "." (p ++ String (digitChar d) EmptyString))
      with (a ++ (String "." p) ++ String (digitChar d) EmptyString).
    rewrite <- !app_assoc_string.
    apply JSFormatFacts.replace_after;
      [apply digitChar_not_zero | apply digitChar_not_point]; lia.
Qed.

(** The digits of a number have no point and do not end the match of
    the zeros: the first of them is not [0] unless it is the only one. *)
Lemma magnitude_pos (x : number) :
  0 <= fst (magnitude x) /\ 0 < snd (magnitude x).
Proof.
  unfold magnitude.
  destruct (Prim2SF x) as [s|s| |s m e]; cbn [fst snd]; try lia.
  destruct (e <? 0) eqn:E; cbn [fst snd].
  - apply Z.ltb_lt in E. split; [lia|]. apply Z.pow_pos_nonneg; lia.
  - apply Z.ltb_ge in E. split; [|lia].
    apply Z.mul_nonneg_nonneg; [lia|]. apply Z.pow_nonneg. lia.
Qed.

Lemma scaled_bounds (x : number) :
  0 <= scaled x /\ 0 <= scaled x mod 10 ^ 10 < 10 ^ Z.of_nat 10.
Proof.
  destruct (magnitude_pos x) as [Hn Hd]. split.
  - unfold scaled. apply Z.div_pos; nia.
  - change (10 ^ Z.of_nat 10) with (10 ^ 10). apply Z.mod_pos_bound. lia.
Qed.

End FractionFacts.

Section FormatCoordFacts.

Import JSFormat.

Variable Number_toString : number -> string.

(** Below [10^21], [toFixed] does not call [Number::toString]. *)
Lemma toFixed_fraction (x : number) :
  isFinite x = true ->
  fst (magnitude x) < 10 ^ 21 * snd (magnitude x) ->
  toFixed Number_toString x 10 =
  signText x ++ decimal (scaled x / 10 ^ 10)
    ++ String "." (fixedWidth 10 (scaled x mod 10 ^ 10)).
Proof.
  intros Hf Hb.
  destruct (FractionFacts.magnitude_pos x) as [Hn Hd].
  unfold scaled. rewrite <- DecimalFacts.fixedDigits_ten by assumption.
  apply Binary64Facts.isFinite_finiteSF in Hf.
  revert Hb. unfold toFixed, signText, magnitude.
  destruct (Prim2SF x) as [s|s| |s m e]; try discriminate Hf; [reflexivity|].
  cbv zeta. intros Hb.
  assert (E : (10 ^ 21 * (if e <? 0 then 2 ^ (- e) else 1)
               <=? (if e <? 0 then Zpos m else Zpos m * 2 ^ e)) = false).
  { apply Z.leb_gt. now destruct (e <? 0). }
  rewrite E. now destruct s, (e <? 0).
Qed.

Lemma below_magnitude (x : number) :
  (abs x <? 1e21)%float = true ->
  isFinite x = true /\ fst (magnitude x) < 10 ^ 21 * snd (magnitude x).
Proof.
  intros H.
  destruct (Binary64Order.abs_lt_const x 1e21%float 7629394531250000 17
              eq_refl H) as [[s E]|(s & m & e & E & Hlt)].
  - split; [apply Binary64Facts.finiteSF_isFinite; now rewrite E|].
    unfold magnitude. rewrite E. reflexivity.
  - split; [apply Binary64Facts.finiteSF_isFinite; now rewrite E|].
    destruct (Binary64Order.finite_mantissa x s m e E) as (Hm & _ & He).
    unfold magnitude. rewrite E.
    change (2 ^ 53) with 9007199254740992 in Hm.
    change (10 ^ 21) with 1000000000000000000000.
    destruct (e <? 0) eqn:Ee; cbn [fst snd].
    + apply Z.ltb_lt in Ee.
      assert (0 < 2 ^ (- e)) by (apply Z.pow_pos_nonneg; lia). lia.
    + apply Z.ltb_ge in Ee. destruct Hlt as [Hlt|[-> Hlt]].
      * assert (2 ^ e <= 2 ^ 16) by (apply Z.pow_le_mono_r; lia).
        assert (0 < 2 ^ e) by (apply Z.pow_pos_nonneg; lia).
        change (2 ^ 16) with 65536 in *. nia.
      * change (2 ^ 17) with 131072. lia.
Qed.

Lemma formatCoord_fraction (x : number) :
  isFinite x = true ->
  fst (magnitude x) < 10 ^ 21 * snd (magnitude x) ->
  formatCoord Number_toString x =
  signText x ++ decimal (scaled x / 10 ^ 10)
    ++ (if scaled x mod 10 ^ 10 =? 0 then EmptyString
        else String "." (fractionDigits 10 (scaled x mod 10 ^ 10))).
Proof.
  intros Hf Hb. unfold formatCoord. rewrite toFixed_fraction by assumption.
  destruct (FractionFacts.scaled_bounds x) as [_ Hr].
  rewrite <- app_assoc_string.
  rewrite (FractionFacts.replace_fraction _ 9 _ Hr).
  destruct (scaled x mod 10 ^ 10 =? 0).
  - now rewrite FractionFacts.app_empty_r.
  - now rewrite app_assoc_string.
Qed.

(** X8. [formatCoord] on a number below [10^21] in absolute value: the
    sign, the digits of the integer part of the number rounded to ten
    decimals (a tie to the larger magnitude) and, unless the ten
    decimals are all zero, a point and the decimals up to the last one
    that is not zero. *)
Theorem formatCoord_rounds (x : number) :
  (abs x <? 1e21)%float = true ->
  formatCoord Number_toString x =
  signText x ++ decimal (scaled x / 10 ^ 10)
    ++ (if scaled x mod 10 ^ 10 =? 0 then EmptyString
        else String "." (fractionDigits 10 (scaled x mod 10 ^ 10))).
Proof.
  intros H. destruct (below_magnitude x H). now apply formatCoord_fraction.
Qed.

Lemma integerOf_scaled (x : number) (n : Z) :
  integerOf x = Some n ->
  scaled x = Z.abs n * 10 ^ 10 /\
  signText x = (if n <? 0 then "-" else EmptyString).
Proof.
  unfold integerOf, scaled, signText, magnitude.
  destruct (Prim2SF x) as [s|s| |s m e]; try discriminate.
  - intros H. injection H as <-. split; reflexivity.
  - destruct (e <? 0) eqn:Ee; cbn [fst snd].
    + apply Z.ltb_lt in Ee.
      assert (Hd : 0 < 2 ^ (- e)) by (apply Z.pow_pos_nonneg; lia).
      destruct (Zpos m mod 2 ^ (- e) =? 0) eqn:Em; [|discriminate].
      apply Z.eqb_eq in Em. intros H. injection H as <-.
      pose proof (Z.div_mod (Zpos m) (2 ^ (- e)) ltac:(lia)) as Hdm.
      rewrite Em, Z.add_0_r in Hdm.
      set (d := 2 ^ (- e)) in *. set (q := Zpos m / d) in *.
      assert (Hq : 0 < q) by nia.
      split.
      * replace (Z.abs (cond_Zopp s q)) with q by (destruct s; simpl; lia).
        symmetry. apply (Z.div_unique _ _ _ d); [lia|]. rewrite Hdm. ring.
      * destruct s; simpl; [|destruct (q <? 0) eqn:E; [apply Z.ltb_lt in E; lia|reflexivity]].
        destruct (- q <? 0) eqn:E; [reflexivity | apply Z.ltb_ge in E; lia].
    + apply Z.ltb_ge in Ee.
      assert (Hd : 0 < 2 ^ e) by (apply Z.pow_pos_nonneg; lia).
      set (q := Zpos m * 2 ^ e) in *.
      assert (Hq : 0 < q) by (unfold q; nia).
      clearbody q. intros H. injection H as <-.
      split.
      * replace (Z.abs (cond_Zopp s q)) with q by (destruct s; simpl; lia).
        symmetry. apply (Z.div_unique _ _ _ 1); [lia|]. ring.
      * destruct s; simpl; [|destruct (q <? 0) eqn:E; [apply Z.ltb_lt in E; lia|reflexivity]].
        destruct (- q <? 0) eqn:E; [reflexivity | apply Z.ltb_ge in E; lia].
Qed.

(** X9. A coordinate that is an integer below [10^21] in absolute
    value is printed as that integer: a minus sign when it is negative,
    its decimal digits, the zeros at their end included, and no point. *)
Theorem formatCoord_integer (x : number) (n : Z) :
  integerOf x = Some n ->
  (abs x <? 1e21)%float = true ->
  formatCoord Number_toString x =
  (if n <? 0 then "-" else EmptyString) ++ decimal (Z.abs n).
Proof.
  intros Hn H. destruct (below_magnitude x H) as [Hf Hb].
  rewrite (formatCoord_fraction x Hf Hb).
  destruct (integerOf_scaled x n Hn) as [-> ->].
  rewrite Z.mod_mul, Z.div_mul by lia. cbn [Z.eqb].
  now rewrite FractionFacts.app_empty_r.
Qed.

(** X10. A coordinate below [5e-11] in absolute value is printed as
    [0], and as [-0] when it is negative: a rotation that should give a
    zero and gives a rounding error of either sign prints one or the
    other.  The bound is the double nearest to [5e-11]. *)
Theorem formatCoord_tiny (x : number) :
  (abs x <? 0x1.b7cdfd9d7bdbbp-35)%float = true ->
  formatCoord Number_toString x = if (x <? 0)%float then "-0" else "0".
Proof.
  intros H.
  assert (Hs : isFinite x = true /\ scaled x = 0 /\
               fst (magnitude x) < 10 ^ 21 * snd (magnitude x)).
  { destruct (Binary64Order.abs_lt_const
                x 0x1.b7cdfd9d7bdbbp-35%float 7737125245533627 (-87)
                eq_refl H) as [[s E]|(s & m & e & E & Hlt)].
    - split; [apply Binary64Facts.finiteSF_isFinite; now rewrite E|].
      unfold scaled, magnitude. rewrite E. split; reflexivity.
    - split; [apply Binary64Facts.finiteSF_isFinite; now rewrite E|].
      destruct (Binary64Order.finite_mantissa x s m e E) as (Hm & _ & He).
      unfold scaled, magnitude. rewrite E.
      assert (Ee : (e <? 0) = true) by (apply Z.ltb_lt; lia).
      rewrite Ee. cbn [fst snd].
      change (2 ^ 53) with 9007199254740992 in Hm.
      change (10 ^ 21) with 1000000000000000000000.
      change (10 ^ 10) with 10000000000.
      assert (Hd : 2 * Zpos m * 10000000000 < 2 ^ (- e)).
      { destruct Hlt as [Hlt|[-> Hlt]].
        - assert (2 ^ 88 <= 2 ^ (- e)) by (apply Z.pow_le_mono_r; lia).
          change (2 ^ 88) with 309485009821345068724781056 in *. lia.
        - change (2 ^ (- -87)) with 154742504910672534362390528. lia. }
      split; [apply Z.div_small; lia | lia]. }
  destruct Hs as (Hf & Hz & Hb).
  rewrite (formatCoord_fraction x Hf Hb), Hz.
  rewrite (Binary64Order.ltb_zero x Hf). unfold signText.
  now destruct (Prim2SF x) as [s|s| |[|] m e].
Qed.

(** X11. From [10^21] on, [toFixed] gives the text of
    [Number::toString], which carries an exponent, and [formatCoord]
    takes the zeros at its end for zeros of a fraction: when that text
    ends with zeros, they are dropped, so that [1e+30] is printed as
    [1e+3]. *)
Theorem formatCoord_large (x : number) (p : string) (d : ascii) (k : nat) :
  isFinite x = true ->
  (1e21 <=? abs x)%float = true ->
  Number_toString (abs x) = p ++ String d (zeros k) ->
  Ascii.eqb d "0" = false -> Ascii.eqb d "." = false ->
  formatCoord Number_toString x = signText x ++ p ++ String d EmptyString.
Proof.
  intros Hf H Ht Hd0 Hdp.
  destruct (Binary64Order.const_le_abs x 1e21%float 7629394531250000 17
              eq_refl H) as [[s E]|(s & m & e & E & Hge)].
  { apply Binary64Facts.isFinite_finiteSF in Hf. rewrite E in Hf.
    discriminate Hf. }
  destruct (Binary64Order.finite_mantissa x s m e E) as (_ & Hm & He).
  unfold formatCoord, toFixed, signText. rewrite E. cbv zeta.
  assert (Ee : (e <? 0) = false) by (apply Z.ltb_ge; lia).
  rewrite Ee.
  assert (Hb : (10 ^ 21 * 1 <=? Zpos m * 2 ^ e) = true).
  { apply Z.leb_le. change (10 ^ 21) with 1000000000000000000000.
    destruct Hge as [Hge|[-> Hge]].
    - specialize (Hm ltac:(lia)).
      assert (2 ^ 18 <= 2 ^ e) by (apply Z.pow_le_mono_r; lia).
      change (2 ^ 52) with 4503599627370496 in Hm.
      change (2 ^ 18) with 262144 in *. nia.
    - change (2 ^ 17) with 131072. lia. }
  rewrite Hb, Ht, <- !app_assoc_string.
  rewrite JSFormatFacts.replace_after by assumption.
  now destruct s.
Qed.

End FormatCoordFacts.

Lemma formatCoord_rounds_witness :
  formatCoord (fun _ => EmptyString) 0x1.8p+1%float = "3" /\
  formatCoord (fun _ => EmptyString) (-0x1.8p-1)%float = "-0.75" /\
  formatCoord (fun _ => EmptyString) 0x1.999999999999ap-4%float = "0.1".
Proof.
  split; [|split].
  - exact (formatCoord_rounds (fun _ => EmptyString) 0x1.8p+1%float eq_refl).
  - exact (formatCoord_rounds (fun _ => EmptyString) (-0x1.8p-1)%float eq_refl).
  - exact (formatCoord_rounds (fun _ => EmptyString) 0x1.999999999999ap-4%float
             eq_refl).
Defined.

Lemma formatCoord_integer_witness :
  formatCoord (fun _ => EmptyString) (-100)%float = "-100".
Proof.
  exact (formatCoord_integer (fun _ => EmptyString) (-100)%float (-100)
           eq_refl eq_refl).
Defined.

Lemma formatCoord_tiny_witness :
  formatCoord (fun _ => EmptyString) (-0x1p-53)%float = "-0".
Proof.
  exact (formatCoord_tiny (fun _ => EmptyString) (-0x1p-53)%float eq_refl).
Defined.

Lemma formatCoord_large_witness :
  formatCoord (fun _ => "1e+30") 0x1.93e5939a08ceap+99%float = "1e+3".
Proof.
  exact (formatCoord_large (fun _ => "1e+30") 0x1.93e5939a08ceap+99%float
           "1e+" "3" 1 eq_refl eq_refl eq_refl eq_refl eq_refl).
Defined.

(** ** The action of the command *)

Lemma parsePoints_throws (s message : string) :
  parsePoints s = Throw message -> message = invalidPoints (trim s).
Proof.
  unfold parsePoints.
  destruct (Nat.eqb (List.length (collectPoints (trim s))) 0); [|discriminate].
  intros H. now injection H.
Qed.

Lemma parseCenter_throws (s message : string) :
  parseCenter s = Throw message -> message = invalidCenter s.
Proof.
  unfold parseCenter.
  destruct (startsWith s "("); [destruct (parsePoint s)|];
    try discriminate; intros H; now injection H.
Qed.

Lemma parseCenter_notNaN (s : string) (cx cy : number) :
  parseCenter s = Return (cx, cy) -> isNaN cx = false /\ isNaN cy = false.
Proof.
  unfold parseCenter.
  destruct (startsWith s "("); [|discriminate].
  destruct (parsePoint s) as [p|] eqn:E; [|discriminate].
  intros H. injection H as <- <-. exact (parsePoint_notNaN s p E).
Qed.

Lemma sub_zero (x : number) : isFinite x = true -> (x - 0)%float = x.
Proof.
  intros Hf. apply Binary64Facts.isFinite_finiteSF in Hf.
  apply Prim2SF_inj. rewrite sub_spec.
  change (Prim2SF 0) with (S754_zero false).
  now destruct (Prim2SF x) as [[]|s| |s m e].
Qed.

Lemma infinity_radians (angle : number) :
  is_infinity angle = true -> is_infinity (radians angle) = true.
Proof.
  intros H.
  assert (E : angle = infinity \/ angle = neg_infinity).
  { unfold is_infinity in H. rewrite eqb_spec, abs_spec in H.
    change (Prim2SF infinity) with (S754_infinity false) in H.
    destruct (Prim2SF angle) as [s|[|]| |s m e] eqn:Ea;
      try discriminate H; [right | left];
      apply Prim2SF_inj; now rewrite Ea. }
  destruct E as [-> | ->]; reflexivity.
Qed.

Lemma infinity_notNaN (x : number) : is_infinity x = true -> isNaN x = false.
Proof.
  intros H. destruct (isNaN x) eqn:E; [|reflexivity].
  apply NaNFacts.is_nan_eq in E. subst x. discriminate H.
Qed.

Section RotateCmdFacts.

Import JSFormat.

Variables Math_cos Math_sin : number -> number.
Variable Number_toString : number -> string.


(** X13. The message [Angle or center must be valid numbers.] is
    printed exactly when the points and the center are read and the
    angle is not a number.  A center that is not read gives the message
    of [parseCenter], so that the tests of the center against [NaN]
    never decide. *)
Theorem rotateAction_invalid_number (pointsStr angleStr centerStr : string) :
  rotateAction Math_cos Math_sin Number_toString pointsStr angleStr centerStr
  = Exited ("Error: " ++ "Angle or center must be valid numbers.") <->
  (exists points, parsePoints pointsStr = Return points) /\
  isNaN (parseFloat angleStr) = true /\
  (exists center, parseCenter centerStr = Return center).
Proof.
  unfold rotateAction.
  destruct (parsePoints pointsStr) as [points|m] eqn:Ep.
  2:{ apply parsePoints_throws in Ep. subst m.
      split; [intros H; discriminate H|].
      intros ([points H] & _). discriminate H. }
  destruct (parseCenter centerStr) as [[cx cy]|m] eqn:Ec.
  2:{ apply parseCenter_throws in Ec. subst m.
      split; [intros H; discriminate H|].
      intros (_ & _ & [c H]). discriminate H. }
  destruct (parseCenter_notNaN _ _ _ Ec) as [-> ->].
  rewrite !orb_false_r.
  destruct (isNaN (parseFloat angleStr)).
  - split; [intros _; repeat split; eauto | reflexivity].
  - split; [|intros (_ & H & _); discriminate H]. cbv zeta.
    match goal with
    | |- context [map ?f points] => destruct (map f points) as [|p [|p' l]]
    end; intros H; discriminate H.
Qed.

(** X14. An angle whose radians are infinite is not refused:
    [Infinity] and [1e999] are numbers for [parseFloat].  ECMAScript
    fixes the cosine and the sine of an infinity to [NaN], and the
    command prints [(NaN, NaN)] for every point. *)
Theorem rotateAction_infinite_angle
    (pointsStr angleStr centerStr : string) (points : list Point)
    (center : Point) :
  (forall r, is_infinity r = true -> Math_cos r = nan) ->
  (forall r, is_infinity r = true -> Math_sin r = nan) ->
  parsePoints pointsStr = Return points ->
  is_infinity (parseFloat angleStr) = true ->
  parseCenter centerStr = Return center ->
  rotateAction Math_cos Math_sin Number_toString pointsStr angleStr centerStr
  = Logged ("New coordinates: "
              ++ match points with
                 | [_] => "(NaN, NaN)"
                 | _ => "[" ++ join " " (map (fun _ => "(NaN, NaN)") points) ++ "]"
                 end).
Proof.
  intros Hc Hs Hp Ha Hcenter. unfold rotateAction.
  rewrite Hp, Hcenter. destruct center as [cx cy].
  destruct (parseCenter_notNaN _ _ _ Hcenter) as [-> ->].
  rewrite (infinity_notNaN _ Ha). cbn [orb].
  assert (Hr : forall p,
             rotate Math_cos Math_sin (fst p) (snd p) (parseFloat angleStr) cx cy
             = (nan, nan)).
  { intros p. unfold rotate. fold (radians (parseFloat angleStr)).
    rewrite (Hc _ (infinity_radians _ Ha)), (Hs _ (infinity_radians _ Ha)).
    now autorewrite with nan_absorb. }
  assert (Hm : map (fun p => rotate Math_cos Math_sin (fst p) (snd p)
                                (parseFloat angleStr) cx cy) points
               = map (fun _ => (nan, nan)) points).
  { apply map_ext. exact Hr. }
  rewrite Hm. clear.
  destruct points as [|p [|p' l]]; [reflexivity..|].
  cbn [map]. rewrite map_map. reflexivity.
Qed.

Lemma formatCoord_sub_add_zero (x : number) :
  isFinite x = true ->
  formatCoord Number_toString (x - 0 + 0)%float = formatCoord Number_toString x.
Proof.
  intros Hf. destruct (Prim2SF x) as [s|s| |s m e] eqn:E.
  - destruct s.
    + assert (Ex : x = neg_zero) by (apply Prim2SF_inj; now rewrite E).
      subst x. reflexivity.
    + rewrite sub_add_zero; [reflexivity | assumption |].
      intros ->. discriminate E.
  - rewrite sub_add_zero; [reflexivity | assumption |]. intros ->. discriminate E.
  - rewrite sub_add_zero; [reflexivity | assumption |]. intros ->. discriminate E.
  - rewrite sub_add_zero; [reflexivity | assumption |]. intros ->. discriminate E.
Qed.

(** X15. With an engine whose cosine of [0] is [1] and whose sine of
    [0] is [0], the angle [0] about the origin gives the points back:
    the command prints the finite points it has read, each coordinate
    in the output format. *)
Theorem rotateAction_zero_angle
    (pointsStr angleStr centerStr : string) (points : list Point) :
  Math_cos 0%float = 1%float -> Math_sin 0%float = 0%float ->
  parsePoints pointsStr = Return points ->
  forallb (fun p => isFinite (fst p) && isFinite (snd p)) points = true ->
  parseFloat angleStr = 0%float ->
  parseCenter centerStr = Return (0%float, 0%float) ->
  rotateAction Math_cos Math_sin Number_toString pointsStr angleStr centerStr
  = Logged ("New coordinates: "
              ++ match points with
                 | [p] => formatPoint Number_toString p
                 | _ => "[" ++ join " " (map (formatPoint Number_toString) points)
                            ++ "]"
                 end).
Proof.
  intros Hc Hs Hp Hfin Ha Hcenter. unfold rotateAction.
  rewrite Hp, Hcenter, Ha. cbn [isNaN orb]. change (is_nan 0) with false.
  cbv iota.
  assert (Hr : forall p,
             isFinite (fst p) && isFinite (snd p) = true ->
             formatPoint Number_toString
               (rotate Math_cos Math_sin (fst p) (snd p) 0%float 0%float 0%float)
             = formatPoint Number_toString p).
  { intros [x y] H. apply andb_prop in H as [Hx Hy]. cbn [fst snd] in *.
    rewrite (rotate_zero_angle Math_cos Math_sin Hc Hs)
      by (rewrite sub_zero; assumption).
    unfold formatPoint. cbn [fst snd].
    now rewrite !formatCoord_sub_add_zero. }
  assert (Hm : map (formatPoint Number_toString)
                 (map (fun p => rotate Math_cos Math_sin (fst p) (snd p)
                                  0%float 0%float 0%float) points)
               = map (formatPoint Number_toString) points).
  { rewrite map_map. clear - Hfin Hr.
    induction points as [|p l IH]; [reflexivity|].
    cbn [forallb] in Hfin. apply andb_prop in Hfin as [H1 H2].
    cbn [map]. now rewrite Hr, IH. }
  destruct points as [|p [|p' l]]; [reflexivity| |].
  - cbn [map forallb] in *. rewrite andb_true_r in Hfin. now rewrite Hr.
  - set (pts := p :: p' :: l) in *.
    assert (Hl : exists a b l', map (fun p => rotate Math_cos Math_sin (fst p)
                                    (snd p) 0%float 0%float 0%float) pts
                                = a :: b :: l') by (cbn; eauto).
    destruct Hl as (a & b & l' & Hl). revert Hm. rewrite Hl. intros ->.
    reflexivity.
Qed.

End RotateCmdFacts.

Lemma rotateAction_infinite_angle_witness :
  rotateAction (fun _ => nan) (fun _ => nan) (fun _ => EmptyString)
    "[(1,2) (3,4)]" "1e999" "(0,0)"
  = Logged "New coordinates: [(NaN, NaN) (NaN, NaN)]".
Proof.
  apply (rotateAction_infinite_angle (fun _ => nan) (fun _ => nan)
           (fun _ => EmptyString) "[(1,2) (3,4)]" "1e999" "(0,0)"
           [(1, 2); (3, 4)]%float (0, 0)%float);
    try reflexivity; vm_compute; reflexivity.
Defined.

Lemma rotateAction_zero_angle_witness :
  rotateAction sampleCos sampleSin (fun _ => EmptyString)
    "[(1.50,-2) (-0,4e2)]" "0" "(0,0)"
  = Logged "New coordinates: [(1.5, -2) (0, 400)]".
Proof.
  apply (rotateAction_zero_angle sampleCos sampleSin (fun _ => EmptyString)
           "[(1.50,-2) (-0,4e2)]" "0" "(0,0)"
           [(0x1.8p+0, -2); (-0, 400)]%float);
    vm_compute; reflexivity.
Defined.

(** ** Coordinates near an integer *)

Section NearInteger.

Import JSFormat.

Local Open Scope R_scope.

(** The absolute value of the real number, as the fraction. *)
Lemma toR_abs (x : number) :
  Rabs (Binary64.toR x) = IZR (fst (magnitude x)) / IZR (snd (magnitude x)).
Proof.
  unfold Binary64.toR, Binary64.SF2R, magnitude.
  destruct (Prim2SF x) as [s|s| |s m e]; cbn [fst snd];
    try (rewrite Rabs_R0; lra).
  assert (Hm : Rabs (IZR (cond_Zopp s (Zpos m))) = IZR (Zpos m)).
  { rewrite <- abs_IZR. now destruct s. }
  destruct (e <? 0)%Z eqn:E; cbn [fst snd].
  - apply Z.ltb_lt in E.
    assert (Hd : 0 < IZR (2 ^ (- e))) by (apply IZR_lt, Z.pow_pos_nonneg; lia).
    unfold Rdiv. rewrite Rabs_mult, Hm, Rabs_inv.
    now rewrite (Rabs_pos_eq _ (Rlt_le _ _ Hd)).
  - apply Z.ltb_ge in E.
    assert (Hd : 0 <= IZR (2 ^ e)) by (apply IZR_le, Z.pow_nonneg; lia).
    rewrite Rabs_mult, Hm, (Rabs_pos_eq _ Hd), mult_IZR. lra.
Qed.

(** The sign that is printed is the sign of the real number. *)
Lemma signText_cases (x : number) :
  (signText x = "-"%string /\ Binary64.toR x < 0) \/
  (signText x = EmptyString /\ 0 <= Binary64.toR x).
Proof.
  unfold signText, Binary64.toR, Binary64.SF2R.
  destruct (Prim2SF x) as [s|s| |s m e]; try (right; split; [reflexivity|lra]).
  assert (Hp : 0 < IZR (Zpos m)) by (apply IZR_lt; lia).
  assert (Hd : 0 < IZR (2 ^ (- e)) \/ (e <? 0)%Z = false).
  { destruct (e <? 0)%Z eqn:E; [left | now right].
    apply Z.ltb_lt in E. apply IZR_lt, Z.pow_pos_nonneg; lia. }
  assert (Hu : 0 < IZR (2 ^ e) \/ (e <? 0)%Z = true).
  { destruct (e <? 0)%Z eqn:E; [now right | left].
    apply Z.ltb_ge in E. apply IZR_lt, Z.pow_pos_nonneg; lia. }
  destruct s; [left | right]; (split; [reflexivity|]);
    cbn [cond_Zopp]; destruct (e <? 0)%Z.
  - destruct Hd as [Hd|Hd]; [|discriminate Hd].
    change (IZR (- Zpos m)) with (- IZR (Zpos m)).
    apply Rmult_neg_pos; [lra | now apply Rinv_0_lt_compat].
  - destruct Hu as [Hu|Hu]; [|discriminate Hu].
    change (IZR (- Zpos m)) with (- IZR (Zpos m)). nra.
  - destruct Hd as [Hd|Hd]; [|discriminate Hd].
    apply Rlt_le, Rmult_lt_0_compat; [lra | now apply Rinv_0_lt_compat].
  - destruct Hu as [Hu|Hu]; [|discriminate Hu]. nra.
Qed.

(** A number less than half a unit of the tenth decimal away from a
    natural number rounds to it. *)
Lemma scaled_near (x : number) (n : Z) :
  (0 <= n < 10 ^ 21)%Z ->
  Rabs (Rabs (Binary64.toR x) - IZR n) < 5 / 10 ^ 11 ->
  scaled x = (n * 10 ^ 10)%Z /\
  (fst (magnitude x) < 10 ^ 21 * snd (magnitude x))%Z.
Proof.
  intros Hn H. rewrite toR_abs in H.
  destruct (FractionFacts.magnitude_pos x) as [Ha Hd].
  unfold scaled.
  set (a := fst (magnitude x)) in *. set (d := snd (magnitude x)) in *.
  assert (HD : 0 < IZR d) by now apply IZR_lt.
  assert (HN : IZR n <= 10 ^ 21 - 1).
  { replace (10 ^ 21 - 1) with (IZR (10 ^ 21 - 1)).
    - apply IZR_le. lia.
    - rewrite minus_IZR. change (10 ^ 21)%Z with 1000000000000000000000%Z. lra. }
  apply Rabs_def2 in H. destruct H as [H1 H2].
  assert (E : IZR a = IZR a / IZR d * IZR d) by (field; lra).
  set (q := IZR a / IZR d) in *.
  assert (B1 : IZR (2 * d * (n * 10 ^ 10)) <= IZR (2 * a * 10 ^ 10 + d)).
  { change (10 ^ 10)%Z with 10000000000%Z.
    rewrite plus_IZR, !mult_IZR, E. nra. }
  assert (B2 : IZR (2 * a * 10 ^ 10 + d) < IZR (2 * d * (n * 10 ^ 10 + 1))).
  { change (10 ^ 10)%Z with 10000000000%Z.
    rewrite !plus_IZR, !mult_IZR, plus_IZR, mult_IZR, E. nra. }
  assert (B3 : IZR a < IZR (10 ^ 21 * d)).
  { change (10 ^ 21)%Z with 1000000000000000000000%Z.
    rewrite mult_IZR, E. nra. }
  apply le_IZR in B1. apply lt_IZR in B2, B3.
  split; [|assumption].
  symmetry. apply (Z.div_unique _ _ _ (2 * a * 10 ^ 10 + d - 2 * d * (n * 10 ^ 10)));
    lia.
Qed.

End NearInteger.

Section NearIntegerOutput.

Import JSFormat.

Variable Number_toString : number -> string.

Local Open Scope R_scope.

Lemma formatCoord_near (x : number) (n : Z) :
  isFinite x = true ->
  (Z.abs n < 10 ^ 21)%Z ->
  Rabs (Binary64.toR x - IZR n) < 5 / 10 ^ 11 ->
  formatCoord Number_toString x = (signText x ++ decimal (Z.abs n))%string.
Proof.
  intros Hf Hn H.
  assert (H' : Rabs (Rabs (Binary64.toR x) - IZR (Z.abs n)) < 5 / 10 ^ 11).
  { rewrite abs_IZR. eapply Rle_lt_trans; [apply Rabs_triang_inv2 | exact H]. }
  destruct (scaled_near x (Z.abs n) ltac:(lia) H') as [Hs Hb].
  rewrite (formatCoord_fraction Number_toString x Hf Hb), Hs.
  rewrite Z.mod_mul, Z.div_mul by lia. cbn [Z.eqb].
  now rewrite FractionFacts.app_empty_r.
Qed.

Lemma signText_ltb (x : number) :
  isFinite x = true ->
  signText x = (if (x <? 0)%float then "-" else EmptyString)%string.
Proof.
  intros Hf. rewrite (Binary64Order.ltb_zero x Hf). unfold signText.
  now destruct (Prim2SF x) as [s|s| |[|] m e].
Qed.

(** Next to an integer other than zero, the sign is the integer's. *)
Lemma signText_near (x : number) (n : Z) :
  n <> 0%Z ->
  Rabs (Binary64.toR x - IZR n) < 5 / 10 ^ 11 ->
  signText x = (if (n <? 0)%Z then "-" else EmptyString)%string.
Proof.
  intros E H. apply Rabs_def2 in H. destruct H as [H1 H2].
  destruct (signText_cases x) as [[-> Hx]|[-> Hx]].
  - assert (Hlt : (n < 1)%Z) by (apply lt_IZR; lra).
    assert (En : (n <? 0)%Z = true) by (apply Z.ltb_lt; lia).
    now rewrite En.
  - assert (Hlt : (-1 < n)%Z) by (apply lt_IZR; lra).
    assert (En : (n <? 0)%Z = false) by (apply Z.ltb_ge; lia).
    now rewrite En.
Qed.

(** X16. What [formatCoord] is for: a finite coordinate less than half
    a unit of the tenth decimal away from an integer is printed as that
    integer.  Next to zero the sign of the rounding error remains: a
    negative coordinate is printed as [-0]. *)
Theorem formatCoord_near_integer (x : number) (n : Z) :
  isFinite x = true ->
  (Z.abs n < 10 ^ 21)%Z ->
  Rabs (Binary64.toR x - IZR n) < 5 / 10 ^ 11 ->
  formatCoord Number_toString x =
  if (n =? 0)%Z then (if (x <? 0)%float then "-0" else "0")%string
  else ((if (n <? 0)%Z then "-" else EmptyString) ++ decimal (Z.abs n))%string.
Proof.
  intros Hf Hn H. rewrite (formatCoord_near x n Hf Hn H).
  destruct (n =? 0)%Z eqn:E.
  - apply Z.eqb_eq in E. subst n. rewrite (signText_ltb x Hf).
    now destruct (x <? 0)%float.
  - apply Z.eqb_neq in E. now rewrite (signText_near x n E H).
Qed.

(** The three integers of the quarter turns. *)
Lemma formatCoord_near_unit (x : number) (n : Z) :
  isFinite x = true ->
  (Z.abs n <= 1)%Z ->
  Rabs (Binary64.toR x - IZR n) <= / 10 ^ 12 ->
  formatCoord Number_toString x =
  match n with
  | Z0 => if (x <? 0)%float then "-0" else "0"
  | Zpos _ => "1"
  | Zneg _ => "-1"
  end%string.
Proof.
  intros Hf Hn H.
  assert (H' : Rabs (Binary64.toR x - IZR n) < 5 / 10 ^ 11)
    by (eapply Rle_lt_trans; [exact H | lra]).
  rewrite (formatCoord_near x n Hf ltac:(lia) H').
  destruct n as [|q|q].
  - rewrite (signText_ltb x Hf). now destruct (x <? 0)%float.
  - assert (q = 1%positive) as -> by lia.
    now rewrite (signText_near x 1 ltac:(lia) H').
  - assert (q = 1%positive) as -> by lia.
    now rewrite (signText_near x (-1) ltac:(lia) H').
Qed.

End NearIntegerOutput.

Lemma formatCoord_near_integer_witness :
  formatCoord (fun _ => EmptyString) 0x1.fffffffffffffp-1%float = "1"%string.
Proof.
  apply (formatCoord_near_integer (fun _ => EmptyString)
           0x1.fffffffffffffp-1%float 1).
  - reflexivity.
  - reflexivity.
  - change (Binary64.toR 0x1.fffffffffffffp-1%float)
      with (9007199254740991 / 9007199254740992)%R.
    apply Rabs_def1; lra.
Defined.

Section QuarterTurnOutput.

Variables Math_cos Math_sin : number -> number.
Variable Number_toString : number -> string.

Variable eps : R.
Hypothesis eps_small : (eps <= 9 / 10 ^ 13)%R.
Hypothesis cos_accurate :
  forall a, In a [90; 180; -90]%float -> accurate Math_cos cos eps (radians a).
Hypothesis sin_accurate :
  forall a, In a [90; 180; -90]%float -> accurate Math_sin sin eps (radians a).

Lemma quarter_output (pointsStr angleStr centerStr : string) (a : number)
    (c s : Z) :
  parsePoints pointsStr = Return [(1, 0)%float] ->
  parseCenter centerStr = Return (0, 0)%float ->
  parseFloat angleStr = a -> In a [90; 180; -90]%float ->
  (Rabs (cos (Binary64.toR (radians a)) - IZR c) <= / 10 ^ 13)%R ->
  (Rabs (sin (Binary64.toR (radians a)) - IZR s) <= / 10 ^ 13)%R ->
  (Z.abs c <= 1)%Z -> (Z.abs s <= 1)%Z ->
  exists x y,
    rotateAction Math_cos Math_sin Number_toString pointsStr angleStr centerStr
    = Logged ("New coordinates: ("
                ++ formatCoord Number_toString x ++ ", "
                ++ formatCoord Number_toString y ++ ")") /\
    formatCoord Number_toString x
    = match c with
      | Z0 => if (x <? 0)%float then "-0" else "0"
      | Zpos _ => "1"
      | Zneg _ => "-1"
      end /\
    formatCoord Number_toString y
    = match s with
      | Z0 => if (y <? 0)%float then "-0" else "0"
      | Zpos _ => "1"
      | Zneg _ => "-1"
      end.
Proof.
  intros Hp Hc Ha Hin Hcos Hsin Hcb Hsb.
  pose proof (rotate_unit_within Math_cos Math_sin eps eps_small
                cos_accurate sin_accurate a (IZR c) (IZR s) Hin Hcos Hsin)
    as (Fx & Fy & Wx & Wy).
  set (p := rotate Math_cos Math_sin 1%float 0%float a 0%float 0%float) in *.
  exists (fst p), (snd p). split; [|split].
  - unfold rotateAction. rewrite Hp, Hc, Ha.
    assert (En : isNaN a = false)
      by (destruct Hin as [<-|[<-|[<-|[]]]]; reflexivity).
    rewrite En. reflexivity.
  - now apply formatCoord_near_unit.
  - now apply formatCoord_near_unit.
Qed.

(** X17. With an engine that is accurate at the three arguments, the
    command gives the quarter and half turns of [(1, 0)] about the
    origin as integers: [(0, 1)] for 90 degrees, [(-1, 0)] for 180 and
    [(0, -1)] for -90, where the coordinate that should vanish is
    printed as [0] or as [-0] with the sign of its rounding error. *)
Theorem rotateAction_quarter_turns (pointsStr angleStr centerStr : string) :
  parsePoints pointsStr = Return [(1, 0)%float] ->
  parseCenter centerStr = Return (0, 0)%float ->
  let printed :=
    rotateAction Math_cos Math_sin Number_toString pointsStr angleStr centerStr
  in
  (parseFloat angleStr = 90%float ->
   printed = Logged "New coordinates: (0, 1)" \/
   printed = Logged "New coordinates: (-0, 1)") /\
  (parseFloat angleStr = 180%float ->
   printed = Logged "New coordinates: (-1, 0)" \/
   printed = Logged "New coordinates: (-1, -0)") /\
  (parseFloat angleStr = (-90)%float ->
   printed = Logged "New coordinates: (0, -1)" \/
   printed = Logged "New coordinates: (-0, -1)").
Proof.
  intros Hp Hc printed. subst printed.
  destruct trig_quarter as [Cq Sq], trig_half as [Ch Sh],
           trig_minus_quarter as [Cm Sm].
  split; [|split]; intros Ha.
  - destruct (quarter_output pointsStr angleStr centerStr 90%float 0 1
                Hp Hc Ha ltac:(simpl; auto) Cq Sq ltac:(simpl; lia)
                ltac:(simpl; lia)) as (x & y & -> & -> & ->).
    destruct (x <? 0)%float; [right | left]; reflexivity.
  - destruct (quarter_output pointsStr angleStr centerStr 180%float (-1) 0
                Hp Hc Ha ltac:(simpl; auto) Ch Sh ltac:(simpl; lia)
                ltac:(simpl; lia)) as (x & y & -> & -> & ->).
    destruct (y <? 0)%float; [right | left]; reflexivity.
  - destruct (quarter_output pointsStr angleStr centerStr (-90)%float 0 (-1)
                Hp Hc Ha ltac:(simpl; auto) Cm Sm ltac:(simpl; lia)
                ltac:(simpl; lia)) as (x & y & -> & -> & ->).
    destruct (x <? 0)%float; [right | left]; reflexivity.
Qed.

End QuarterTurnOutput.

Lemma rotateAction_quarter_turns_witness :
  rotateAction sampleCos sampleSin (fun _ => EmptyString) "(1,0)" "90" "(0,0)"
  = Logged "New coordinates: (0, 1)" \/
  rotateAction sampleCos sampleSin (fun _ => EmptyString) "(1,0)" "90" "(0,0)"
  = Logged "New coordinates: (-0, 1)".
Proof.
  apply (proj1 (rotateAction_quarter_turns sampleCos sampleSin
                  (fun _ => EmptyString) (9 / 10 ^ 13)%R
                  (Rle_refl _) (proj1 sample_accurate) (proj2 sample_accurate)
                  "(1,0)" "90" "(0,0)" ltac:(vm_compute; reflexivity)
                  ltac:(vm_compute; reflexivity))).
  vm_compute. reflexivity.
Defined.
